(** * vuln-common-file-disclosure-scanner: a shallow embedding of [main.py]

    The scanner joins a base URL with each candidate file name, issues one
    HTTP GET per name, keeps the bodies of the answers with status 200 in a
    dictionary keyed by the joined URL, and optionally writes a text report.

    Python values are modelled as follows.
    - [str] is [String.string].  The program only inspects ASCII delimiters
      (slash, colon, ...), so nothing below depends on how a character
      outside ASCII is represented.
    - [int] is [Z].
    - A [dict] is an association list in insertion order, without repeated
      keys: assigning to a key that is present replaces the value in place.
    - What a [raise] carries is a value of [raised]; a computation that may
      raise returns a [result].  Code that performs input and output runs in
      the monad [M], a state monad over the process state, with exceptions.
    - What the libraries decide is a parameter: the answer of [argparse] to
      the command line, the answers of the network and of the file system,
      and the records that library code logs during a request. *)

From Stdlib Require Import String Ascii List ZArith Lia Bool DecimalString.
Import ListNotations.

Local Open Scope list_scope.
Local Open Scope string_scope.

Set Implicit Arguments.

(** ** Python strings *)

Module PyStr.

Definition str := string.

(** [s.startswith(p)] *)
Fixpoint startswith (s p : str) : bool :=
  match p, s with
  | EmptyString, _ => true
  | String _ _, EmptyString => false
  | String b p', String a s' => Ascii.eqb a b && startswith s' p'
  end.

(** [s.endswith(p)] *)
Definition endswith (s p : str) : bool :=
  (String.length p <=? String.length s)%nat
  && (substring (String.length s - String.length p) (String.length p) s =? p).

(** [s[:k]] for a non-negative [k] *)
Definition slice_to (k : nat) (s : str) : str := substring 0 k s.

(** [s[k:]] for a non-negative [k] *)
Definition slice_from (k : nat) (s : str) : str :=
  substring k (String.length s - k) s.

(** [s[:-1]] *)
Definition drop_last (s : str) : str := slice_to (String.length s - 1) s.

(** [c in s] for a one-character [c] *)
Fixpoint contains (c : ascii) (s : str) : bool :=
  match s with
  | EmptyString => false
  | String a s' => Ascii.eqb a c || contains c s'
  end.

(** [s.find(c, start)], as an option instead of the sentinel -1 *)
Fixpoint find_from (c : ascii) (start : nat) (s : str) : option nat :=
  match s with
  | EmptyString => None
  | String a s' =>
      match start with
      | O => if Ascii.eqb a c then Some O
             else option_map S (find_from c O s')
      | S k => option_map S (find_from c k s')
      end
  end.

Definition find (c : ascii) (s : str) : option nat := find_from c 0 s.

(** [s.rfind(c)] *)
Fixpoint rfind (c : ascii) (s : str) : option nat :=
  match s with
  | EmptyString => None
  | String a s' =>
      match rfind c s' with
      | Some i => Some (S i)
      | None => if Ascii.eqb a c then Some O else None
      end
  end.

(** [s.replace(c, "")] for a one-character [c] *)
Fixpoint remove_char (c : ascii) (s : str) : str :=
  match s with
  | EmptyString => EmptyString
  | String a s' =>
      if Ascii.eqb a c then remove_char c s' else String a (remove_char c s')
  end.

(** [s.lstrip(chars)] *)
Fixpoint lstrip (chars : str) (s : str) : str :=
  match s with
  | EmptyString => EmptyString
  | String a s' => if contains a chars then lstrip chars s' else s
  end.

(** [s.rstrip(chars)] *)
Fixpoint rstrip (chars : str) (s : str) : str :=
  match s with
  | EmptyString => EmptyString
  | String a s' =>
      match rstrip chars s' with
      | EmptyString =>
          if contains a chars then EmptyString else String a EmptyString
      | r => String a r
      end
  end.

(** [c * n] *)
Fixpoint repeat_char (c : ascii) (n : nat) : str :=
  match n with
  | O => EmptyString
  | S k => String c (repeat_char c k)
  end.

(** [c.isascii()] *)
Definition isascii_char (c : ascii) : bool := (nat_of_ascii c <? 128)%nat.

(** [s.isascii()] *)
Fixpoint isascii (s : str) : bool :=
  match s with
  | EmptyString => true
  | String a s' => isascii_char a && isascii s'
  end.

Definition is_upper (c : ascii) : bool :=
  (65 <=? nat_of_ascii c)%nat && (nat_of_ascii c <=? 90)%nat.

Definition is_lower (c : ascii) : bool :=
  (97 <=? nat_of_ascii c)%nat && (nat_of_ascii c <=? 122)%nat.

(** [c.isascii() and c.isalpha()] *)
Definition isascii_alpha (c : ascii) : bool := is_upper c || is_lower c.

(** [s.lower()], on the ASCII letters *)
Definition lower_char (c : ascii) : ascii :=
  if is_upper c then ascii_of_nat (nat_of_ascii c + 32) else c.

Fixpoint lower (s : str) : str :=
  match s with
  | EmptyString => EmptyString
  | String a s' => String (lower_char a) (lower s')
  end.

(** [bool(s)]: a string is truthy when it is not empty *)
Definition truthy (s : str) : bool :=
  match s with EmptyString => false | _ => true end.

(** The line feed, written [\n] in the source. *)
Definition nl : str := String (ascii_of_nat 10) EmptyString.

End PyStr.
Import PyStr.

(** ** [urljoin] (main.py, lines 73-88) *)

Definition urljoin (base url : str) : str :=
  let base := if endswith base "/" then drop_last base else base in
  let url := if startswith url "/" then slice_from 1 url else url in
  base ++ "/" ++ url.

(** The join as the specification words it: every trailing slash of the base
    and every leading slash of the file name is stripped, and the two are
    concatenated with a single slash. *)
Definition spec_join (base url : str) : str :=
  rstrip "/" base ++ "/" ++ lstrip "/" url.


(** ** Exceptions and results *)

(** What made [requests.get] fail; each is a subclass of
    [requests.exceptions.RequestException]. *)
Inductive request_failure :=
| Timeout
| ConnectionRefused
| DNSFailure
| TLSFailure
| TooManyRedirects
| HTTPError
| OtherRequestFailure.

(** The subclasses of [Exception] the program meets, each with the text that
    [str(e)] gives. *)
Inductive py_error :=
| RequestException (kind : request_failure) (msg : str)
| ValueError (msg : str)
| OSError (msg : str)
| OtherException (class_name msg : str).

(** What a [raise] carries: an [Exception], or the [SystemExit] of
    [sys.exit], which is a [BaseException] and no [Exception]. *)
Inductive raised :=
| Error (e : py_error)
| SystemExit (code : Z).

Inductive result (A : Type) :=
| Return (a : A)
| Raise (e : raised).
Arguments Return {A} a.
Arguments Raise {A} e.

Definition str_of_error (e : py_error) : str :=
  match e with
  | RequestException _ msg => msg
  | ValueError msg => msg
  | OSError msg => msg
  | OtherException _ msg => msg
  end.

(** [str(n)] for an [int] *)
Definition str_of_int (n : Z) : str := NilZero.string_of_int (Z.to_int n).

(** A value interpolated in an f-string: [None] prints as its name. *)
Definition format_opt (v : option str) : str :=
  match v with Some s => s | None => "None" end.

(** ** Dictionaries in insertion order *)

Module Dict.
Section Values.
Variable V : Type.

Definition t := list (str * V).

Definition empty : t := [].

(** [d[k] = v]: a key that is present keeps its place. *)
Fixpoint set (d : t) (k : str) (v : V) : t :=
  match d with
  | [] => [(k, v)]
  | (k', v') :: d' =>
      if k' =? k then (k', v) :: d' else (k', v') :: set d' k v
  end.

(** [d.get(k)] *)
Fixpoint get (d : t) (k : str) : option V :=
  match d with
  | [] => None
  | (k', v') :: d' => if k' =? k then Some v' else get d' k
  end.

(** [list(d)]: the keys in iteration order *)
Definition keys (d : t) : list str := map fst d.

(** [d.items()] *)
Definition items (d : t) : list (str * V) := d.

(** [bool(d)] *)
Definition truthy (d : t) : bool :=
  match d with [] => false | _ => true end.
End Values.
End Dict.

(** ** The process state and the outside world *)

Inductive log_level := DEBUG | INFO | WARNING | ERROR.

(** [logging.DEBUG], [logging.INFO], [logging.WARNING], [logging.ERROR] *)
Definition level_no (l : log_level) : Z :=
  match l with DEBUG => 10 | INFO => 20 | WARNING => 30 | ERROR => 40 end.

(** The response object of [requests]. *)
Record Response := {
  status_code : Z;
  reason : str;
  final_url : str;
  text : str
}.

Inductive get_outcome :=
| Responds (r : Response)
| GetRaises (e : py_error).

(** The state of one run: the root logger's level, the records logged, the
    GET requests sent (URL and timeout), and the files on disk; lists grow
    at the end. *)
Record state := {
  log_threshold : log_level;
  log_records : list (log_level * str);
  sent : list (str * Z);
  disk : Dict.t str
}.

(** [logging.basicConfig(level=logging.INFO, ...)] at import time. *)
Definition initial_state (fs : Dict.t str) : state :=
  {| log_threshold := INFO; log_records := []; sent := []; disk := fs |}.

(** The world the run talks to.  [http_get] answers a GET given the requests
    sent before it, so that a server may answer the same URL differently
    over time.  [get_records] lists the records that the libraries under
    [requests.get] (urllib3 and what it rests on) hand to the [logging]
    module during that GET, and [text_records] those handed to it while
    [response.text] decodes the body (the detection of the encoding): these
    loggers have no level of their own and propagate to the root logger.
    [fs_open], [fs_write] and [fs_close] say whether opening a path for
    writing, writing a chunk after the content written so far, and closing
    the file fail. *)
Record world := {
  http_get : list (str * Z) -> str -> Z -> get_outcome;
  get_records : list (str * Z) -> str -> Z -> list (log_level * str);
  text_records : Response -> list (log_level * str);
  fs_open : str -> option py_error;
  fs_write : str -> str -> str -> option py_error;
  fs_close : str -> str -> option py_error
}.

(** ** The monad of effectful code *)

Definition M (A : Type) : Type := state -> result A * state.

Definition ret {A} (a : A) : M A := fun s => (Return a, s).

Definition bind {A B} (c : M A) (k : A -> M B) : M B :=
  fun s =>
    match c s with
    | (Return a, s') => k a s'
    | (Raise e, s') => (Raise e, s')
    end.

Definition raise {A} (e : raised) : M A := fun s => (Raise e, s).

Definition lift {A} (r : result A) : M A := fun s => (r, s).

(** [try: body / except ...: handler]: [handler e] is [None] when no
    [except] clause matches [e], which then propagates. *)
Definition try_except {A} (body : M A) (handler : raised -> option (M A))
  : M A :=
  fun s =>
    match body s with
    | (Return a, s') => (Return a, s')
    | (Raise e, s') =>
        match handler e with
        | Some h => h s'
        | None => (Raise e, s')
        end
    end.

(** [try: body / finally: fin] *)
Definition try_finally {A} (body : M A) (fin : M unit) : M A :=
  fun s =>
    match body s with
    | (r, s') =>
        match fin s' with
        | (Return _, s'') => (r, s'')
        | (Raise e, s'') => (Raise e, s'')
        end
    end.

Declare Scope monad_scope.
Delimit Scope monad_scope with monad.
Notation "x <- c ;; k" := (bind c (fun x => k))
  (at level 61, c at next level, right associativity) : monad_scope.
Notation "' pat <- c ;; k" := (bind c (fun pat => k))
  (at level 61, pat pattern, c at next level, right associativity)
  : monad_scope.
Notation "c ;; k" := (bind c (fun _ => k))
  (at level 61, right associativity) : monad_scope.
Local Open Scope monad_scope.

(** [for x in xs: body x], threading the loop's variables [acc]. *)
Fixpoint for_each {A B} (xs : list A) (acc : B) (body : A -> B -> M B)
  : M B :=
  match xs with
  | [] => ret acc
  | x :: xs' => acc' <- body x acc ;; for_each xs' acc' body
  end.

(** *** Logging *)

Definition set_level (l : log_level) : M unit :=
  fun s =>
    (Return tt,
     {| log_threshold := l; log_records := log_records s;
        sent := sent s; disk := disk s |}).

Definition logging_log (l : log_level) (msg : str) : M unit :=
  fun s =>
    if (level_no (log_threshold s) <=? level_no l)%Z then
      (Return tt,
       {| log_threshold := log_threshold s;
          log_records := (log_records s ++ [(l, msg)])%list;
          sent := sent s; disk := disk s |})
    else (Return tt, s).

(** The records a library logger hands over: those at or above the level
    of the root logger are handled, in order. *)
Definition handled (threshold : log_level) (records : list (log_level * str))
  : list (log_level * str) :=
  filter (fun r => (level_no threshold <=? level_no (fst r))%Z) records.

Definition library_log (records : list (log_level * str)) : M unit :=
  fun s =>
    (Return tt,
     {| log_threshold := log_threshold s;
        log_records :=
          (log_records s ++ handled (log_threshold s) records)%list;
        sent := sent s; disk := disk s |}).

Definition logging_debug := logging_log DEBUG.
Definition logging_info := logging_log INFO.
Definition logging_error := logging_log ERROR.

(** [sys.exit(code)] *)
Definition sys_exit {A} (code : Z) : M A := raise (SystemExit code).

(** ** [urllib.parse.urlparse]

    The standard library's parser (CPython 3.11, [Lib/urllib/parse.py]), for
    [str] arguments and the default [scheme=''] and [allow_fragments=True].
    Two checks that rest on other library modules are parameters: the NFKC
    normalisation of [unicodedata], and [_check_bracketed_netloc], which
    validates a bracketed IPv6 or IPvFuture host with [ipaddress] and [re]. *)

Module Urllib.

Record ParseResult := {
  scheme : str;
  netloc : str;
  path : str;
  params : str;
  query : str;
  fragment : str
}.

Definition uses_params : list str :=
  [""; "ftp"; "hdl"; "prospero"; "http"; "imap";
   "https"; "shttp"; "rtsp"; "rtspu"; "sip"; "sips";
   "mms"; "sftp"; "tel"].

Definition scheme_chars : str :=
  "abcdefghijklmnopqrstuvwxyz" ++
  "ABCDEFGHIJKLMNOPQRSTUVWXYZ" ++
  "0123456789" ++
  "+-.".

(** ["".join([chr(i) for i in range(0, 0x20 + 1)])] *)
Definition _WHATWG_C0_CONTROL_OR_SPACE : str :=
  string_of_list_ascii (map ascii_of_nat (seq 0 33)).

Definition _UNSAFE_URL_BYTES_TO_REMOVE : list ascii :=
  [ascii_of_nat 9; ascii_of_nat 13; ascii_of_nat 10].

(** [all(c in chars for c in s)] *)
Fixpoint all_in (chars : str) (s : str) : bool :=
  match s with
  | EmptyString => true
  | String a s' => contains a chars && all_in chars s'
  end.

(** [s in l] for a list of strings *)
Definition mem (s : str) (l : list str) : bool :=
  existsb (String.eqb s) l.

(** [s[a:b]] for [0 <= a] and [0 <= b] *)
Definition slice (a b : nat) (s : str) : str := substring a (b - a) s.

(** [s.split(c, 1)] when [c in s]: the parts around the first [c]. *)
Definition split_once (c : ascii) (s : str) : str * str :=
  match find c s with
  | Some i => (slice_to i s, slice_from (S i) s)
  | None => (s, "")
  end.

Definition _splitnetloc (url : str) (start : nat) : str * str :=
  let delim :=
    fold_left
      (fun delim c =>
         match find_from c start url with
         | Some wdelim => Nat.min delim wdelim
         | None => delim
         end)
      ["/"%char; "?"%char; "#"%char] (String.length url) in
  (slice start delim url, slice_from delim url).

Definition _splitparams (url : str) : str * str :=
  if contains "/" url then
    match rfind "/" url with
    | Some j =>
        match find_from ";" j url with
        | Some i => (slice_to i url, slice_from (S i) url)
        | None => (url, "")
        end
    | None => (url, "")
    end
  else
    match find ";" url with
    | Some i => (slice_to i url, slice_from (S i) url)
    | None => (slice_to (String.length url - 1) url, url)
    end.

Section Libraries.
(** [unicodedata.normalize('NFKC', s)] *)
Variable normalize_NFKC : str -> str.
(** [_check_bracketed_netloc(netloc)] *)
Variable _check_bracketed_netloc : str -> result unit.

Definition _checknetloc (netloc : str) : result unit :=
  if negb (truthy netloc) || isascii netloc then Return tt
  else
    let n := remove_char "@" netloc in
    let n := remove_char ":" n in
    let n := remove_char "#" n in
    let n := remove_char "?" n in
    let netloc2 := normalize_NFKC n in
    if n =? netloc2 then Return tt
    else if existsb (fun c => contains c netloc2)
              ["/"%char; "?"%char; "#"%char; "@"%char; ":"%char]
    then Raise (Error (ValueError
           ("netloc '" ++ netloc ++ "' contains invalid " ++
            "characters under NFKC normalization")))
    else Return tt.

Definition urlsplit (url : str) : result (str * str * str * str * str) :=
  let url := lstrip _WHATWG_C0_CONTROL_OR_SPACE url in
  let url :=
    fold_left (fun u b => remove_char b u) _UNSAFE_URL_BYTES_TO_REMOVE url in
  let '(scheme, url) :=
    match find ":" url, url with
    | Some (S i'), String c0 _ =>
        let i := S i' in
        if isascii_alpha c0 && all_in scheme_chars (slice_to i url)
        then (lower (slice_to i url), slice_from (S i) url)
        else ("", url)
    | _, _ => ("", url)
    end in
  let split_netloc : result (str * str) :=
    if slice_to 2 url =? "//" then
      let '(netloc, url) := _splitnetloc url 2 in
      if (contains "[" netloc && negb (contains "]" netloc))
         || (contains "]" netloc && negb (contains "[" netloc))
      then Raise (Error (ValueError "Invalid IPv6 URL"))
      else if contains "[" netloc && contains "]" netloc then
        match _check_bracketed_netloc netloc with
        | Return _ => Return (netloc, url)
        | Raise e => Raise e
        end
      else Return (netloc, url)
    else Return ("", url) in
  match split_netloc with
  | Raise e => Raise e
  | Return (netloc, url) =>
      let '(url, fragment) :=
        if contains "#" url then split_once "#" url else (url, "") in
      let '(url, query) :=
        if contains "?" url then split_once "?" url else (url, "") in
      match _checknetloc netloc with
      | Raise e => Raise e
      | Return _ => Return (scheme, netloc, url, query, fragment)
      end
  end.

Definition urlparse (url : str) : result ParseResult :=
  match urlsplit url with
  | Raise e => Raise e
  | Return (scheme, netloc, url, query, fragment) =>
      let '(url, params) :=
        if mem scheme uses_params && contains ";" url
        then _splitparams url else (url, "") in
      Return {| scheme := scheme; netloc := netloc; path := url;
                params := params; query := query; fragment := fragment |}
  end.
End Libraries.

(** [s.partition(c)] and [s.rpartition(c)] for a one-character [c] *)
Definition partition (c : ascii) (s : str) : str * str * str :=
  match find c s with
  | Some i => (slice_to i s, String c EmptyString, slice_from (S i) s)
  | None => (s, "", "")
  end.

Definition rpartition (c : ascii) (s : str) : str * str * str :=
  match rfind c s with
  | Some i => (slice_to i s, String c EmptyString, slice_from (S i) s)
  | None => ("", "", s)
  end.

(** The property [_hostinfo] of a parse result: the host and the port, read
    off the network location after the user information and around a
    bracketed address.  [result.hostname] is [None] exactly when the first
    component is empty. *)
Definition _hostinfo (r : ParseResult) : str * option str :=
  let netloc := netloc r in
  let '(_, _, hostinfo) := rpartition "@" netloc in
  let '(_, have_open_br, bracketed) := partition "[" hostinfo in
  let '(hostname, port) :=
    if truthy have_open_br then
      let '(hostname, _, port) := partition "]" bracketed in
      let '(_, _, port) := partition ":" port in
      (hostname, port)
    else
      let '(hostname, _, port) := partition ":" hostinfo in
      (hostname, port) in
  (hostname, if truthy port then Some port else None).

End Urllib.


(** ** The program *)

(** The [Namespace] that [parser.parse_args()] returns (main.py, lines
    26-39): [-o] may be absent, in which case [args.output] is [None]. *)
Record Namespace := {
  args_url : str;
  args_files : list str;
  args_timeout : Z;
  args_verbose : bool;
  args_output : option str
}.

(** What [parse_args] of [argparse] does with a command line: it returns the
    [Namespace], or it ends the process through [sys.exit], with status 2
    after the message of a usage error and with status 0 after the help
    text. *)
Inductive parse_outcome :=
| Parsed (args : Namespace)
| Exits (code : Z).

Definition COMMON_FILES : list str :=
  [".env";
   "docker-compose.yml";
   "config.php";
   "wp-config.php";
   ".git/config";
   "application.yml";
   "application.properties";
   "database.yml";
   "web.config";
   "config.ini";
   "secrets.yml"].

(** [response.raise_for_status()] of [requests] *)
Definition raise_for_status (r : Response) : result unit :=
  if ((400 <=? status_code r) && (status_code r <? 500))%Z then
    Raise (Error (RequestException HTTPError
      (str_of_int (status_code r) ++ " Client Error: " ++ reason r ++
       " for url: " ++ final_url r)))
  else if ((500 <=? status_code r) && (status_code r <? 600))%Z then
    Raise (Error (RequestException HTTPError
      (str_of_int (status_code r) ++ " Server Error: " ++ reason r ++
       " for url: " ++ final_url r)))
  else Return tt.

Section Scanner.

(** [setup_argparse().parse_args()] on the command line *)
Variable parse_args : list str -> parse_outcome.
(** [urllib.parse.urlparse] *)
Variable urlparse : str -> result Urllib.ParseResult.
(** The network and the file system. *)
Variable W : world.

(** [requests.get(url, timeout=timeout, allow_redirects=True)]: the
    request is recorded, the records of the libraries are logged, and the
    world's answer is returned or raised. *)
Definition requests_get (url : str) (timeout : Z) : M Response :=
  fun s =>
    let s' := {| log_threshold := log_threshold s;
                 log_records :=
                   (log_records s
                    ++ handled (log_threshold s)
                         (get_records W (sent s) url timeout))%list;
                 sent := (sent s ++ [(url, timeout)])%list;
                 disk := disk s |} in
    match http_get W (sent s) url timeout with
    | Responds r => (Return r, s')
    | GetRaises e => (Raise (Error e), s')
    end.

(** [response.text]: the body, decoded. *)
Definition response_text (r : Response) : M str :=
  library_log (text_records W r) ;; ret (text r).

(** [open(path, "w")]: the file is created or truncated. *)
Definition open_w (path : str) : M unit :=
  fun s =>
    match fs_open W path with
    | Some e => (Raise (Error e), s)
    | None =>
        (Return tt,
         {| log_threshold := log_threshold s;
            log_records := log_records s;
            sent := sent s;
            disk := Dict.set (disk s) path "" |})
    end.

(** [f.write(data)] on the file opened at [path] *)
Definition file_write (path data : str) : M unit :=
  fun s =>
    let written :=
      match Dict.get (disk s) path with Some c => c | None => "" end in
    match fs_write W path written data with
    | Some e => (Raise (Error e), s)
    | None =>
        (Return tt,
         {| log_threshold := log_threshold s;
            log_records := log_records s;
            sent := sent s;
            disk := Dict.set (disk s) path (written ++ data) |})
    end.

(** Closing the file at the end of a [with] block. *)
Definition file_close (path : str) : M unit :=
  fun s =>
    let written :=
      match Dict.get (disk s) path with Some c => c | None => "" end in
    match fs_close W path written with
    | Some e => (Raise (Error e), s)
    | None => (Return tt, s)
    end.

(** [with open(path, "w") as f: body] *)
Definition with_open_w (path : str) (body : M unit) : M unit :=
  open_w path ;; try_finally body (file_close path).

(** main.py, lines 41-70.  [target_url] is bound by the first statement
    of the [try] block, which cannot raise on strings, so both handlers
    find it bound. *)
Definition check_file_exists (url filename : str) (timeout : Z)
  : M (bool * str * option str) :=
  let target_url := urljoin url filename in
  try_except
    (logging_debug ("Checking for: " ++ target_url) ;;
     response <- requests_get target_url timeout ;;
     lift (raise_for_status response) ;;
     if (status_code response =? 200)%Z then
       logging_info ("Found: " ++ target_url ++ " (Status Code: " ++
                     str_of_int (status_code response) ++ ")") ;;
       content <- response_text response ;;
       ret (true, target_url, Some content)
     else
       logging_debug ("Not Found: " ++ target_url ++ " (Status Code: " ++
                      str_of_int (status_code response) ++ ")") ;;
       ret (false, target_url, None))
    (fun e =>
       match e with
       | Error (RequestException _ _ as err) =>
           Some (logging_debug ("Error checking " ++ filename ++ ": " ++
                                str_of_error err) ;;
                 ret (false, target_url, None))
       | Error err =>
           Some (logging_error ("An unexpected error occurred: " ++
                                str_of_error err) ;;
                 ret (false, target_url, None))
       | SystemExit _ => None
       end).

(** main.py, lines 90-104: the bare [except:] catches whatever is
    raised. *)
Definition validate_url (url : str) : result bool :=
  match urlparse url with
  | Return result =>
      Return (forallb truthy [Urllib.scheme result; Urllib.netloc result])
  | Raise _ => Return false
  end.

(** The loop of main.py, lines 125-128, from the dictionary built so
    far. *)
Definition scan (url : str) (files : list str) (timeout : Z)
    (found_files : Dict.t (option str)) : M (Dict.t (option str)) :=
  for_each files found_files
    (fun filename found_files =>
       '(exists_, url', content) <- check_file_exists url filename timeout ;;
       if exists_ then ret (Dict.set found_files url' content)
       else ret found_files).

(** main.py, lines 137-151: the report file. *)
Definition write_report (path : str) (found_files : Dict.t (option str))
  : M unit :=
  try_except
    (with_open_w path
       (if Dict.truthy found_files then
          file_write path ("Potentially sensitive files found:" ++ nl) ;;
          for_each (Dict.items found_files) tt
            (fun '(url, content) _ =>
               file_write path ("URL: " ++ url ++ nl) ;;
               file_write path
                 ("Content:" ++ nl ++ format_opt content ++ nl) ;;
               file_write path (repeat_char "-" 40 ++ nl))
        else
          file_write path ("No sensitive files found." ++ nl)) ;;
     logging_info ("Results saved to " ++ path))
    (fun e =>
       match e with
       | Error err =>
           Some (logging_error ("Error writing to output file: " ++
                                str_of_error err))
       | SystemExit _ => None
       end).

(** main.py, lines 114-151: [main] once the arguments are parsed. *)
Definition main_parsed (args : Namespace) : M unit :=
  (if args_verbose args then set_level DEBUG else ret tt) ;;
  valid <- lift (validate_url (args_url args)) ;;
  (if negb valid then
     logging_error ("Invalid URL provided.  Please provide a full URL " ++
                    "(e.g., http://example.com)") ;;
     sys_exit 1
   else ret tt) ;;
  logging_info ("Starting scan for " ++ args_url args ++ "...") ;;
  found_files <- scan (args_url args) (args_files args) (args_timeout args)
                   (Dict.empty _) ;;
  (if Dict.truthy found_files then
     logging_info "The following potentially sensitive files were found:" ;;
     for_each (Dict.items found_files) tt
       (fun '(url, _) _ => logging_info ("- " ++ url))
   else
     logging_info "No sensitive files were found.") ;;
  match args_output args with
  | Some path => if truthy path then write_report path found_files else ret tt
  | None => ret tt
  end.

(** main.py, lines 107-151: the command line is parsed first, and the
    parser may end the process there. *)
Definition main (argv : list str) : M unit :=
  match parse_args argv with
  | Parsed args => main_parsed args
  | Exits code => sys_exit code
  end.

(** The exit status of a computation run as the process: 0 when it returns,
    the code of [sys.exit] when it raised [SystemExit], and 1 after an
    uncaught exception. *)
Definition exit_of (outcome : result unit * state) : Z * state :=
  match outcome with
  | (Return _, s) => (0%Z, s)
  | (Raise (SystemExit code), s) => (code, s)
  | (Raise (Error _), s) => (1%Z, s)
  end.

(** The process from the parsed arguments on: the exit status is 0 when
    [main_parsed] returns, the code of [sys.exit] when it raised
    [SystemExit], and 1 after an uncaught exception. *)
Definition run (args : Namespace) (fs : Dict.t str) : Z * state :=
  match main_parsed args (initial_state fs) with
  | (Return _, s) => (0%Z, s)
  | (Raise (SystemExit code), s) => (code, s)
  | (Raise (Error _), s) => (1%Z, s)
  end.

(** The process on a command line ([sys.argv] without the name of the
    program), as [if __name__ == "__main__": main()] runs it. *)
Definition process (argv : list str) (fs : Dict.t str) : Z * state :=
  exit_of (main argv (initial_state fs)).

End Scanner.

(** ** A stubbed world for concrete runs *)

Module Stub.

Definition ok_response (url body : str) : Response :=
  {| status_code := 200; reason := "OK"; final_url := url; text := body |}.

Definition status_response (code : Z) (why url : str) : Response :=
  {| status_code := code; reason := why; final_url := url; text := "" |}.

(** A host that serves [/.env], moved [/old] for good without a target,
    answers 500 at [/crash], cannot be reached for [/down], breaks
    inside the client for [/odd], and knows no other path. *)
Definition get (_ : list (str * Z)) (url : str) (_ : Z) : get_outcome :=
  if url =? "http://test.local/.env" then
    Responds (ok_response url ("SECRET=1" ++ nl))
  else if url =? "http://test.local/old" then
    Responds (status_response 301 "Moved Permanently" url)
  else if url =? "http://test.local/crash" then
    Responds (status_response 500 "Internal Server Error" url)
  else if url =? "http://test.local/down" then
    GetRaises (RequestException Timeout "Read timed out.")
  else if url =? "http://test.local/odd" then
    GetRaises (OtherException "RuntimeError" "unexpected")
  else
    Responds (status_response 404 "Not Found" url).

(** A server whose [/.env] changes between two requests. *)
Definition get_changing (before : list (str * Z)) (url : str) (_ : Z)
  : get_outcome :=
  if url =? "http://test.local/.env" then
    Responds (ok_response url
                (if (List.length before =? 0)%nat then "first" else "later"))
  else
    Responds (ok_response url "other").

Definition good_disk : world :=
  {| http_get := get;
     get_records := fun _ _ _ => [];
     text_records := fun _ => [];
     fs_open := fun _ => None;
     fs_write := fun _ _ _ => None;
     fs_close := fun _ _ => None |}.

Definition changing : world :=
  {| http_get := get_changing;
     get_records := fun _ _ _ => [];
     text_records := fun _ => [];
     fs_open := fun _ => None;
     fs_write := fun _ _ _ => None;
     fs_close := fun _ _ => None |}.

(** The same host behind libraries that log: one debug record and one
    warning per request, and a debug record when a body is decoded. *)
Definition chatty : world :=
  {| http_get := get;
     get_records := fun _ _ _ =>
       [(DEBUG, "Starting new HTTP connection (1): test.local:80");
        (WARNING, "Failed to parse headers")];
     text_records := fun _ =>
       [(DEBUG, "Encoding detection: ascii is most likely the one.")];
     fs_open := fun _ => None;
     fs_write := fun _ _ _ => None;
     fs_close := fun _ _ => None |}.

Definition read_only_disk : world :=
  {| http_get := get;
     get_records := fun _ _ _ => [];
     text_records := fun _ => [];
     fs_open := fun _ => Some (OSError "[Errno 13] Permission denied");
     fs_write := fun _ _ _ => None;
     fs_close := fun _ _ => None |}.

Definition full_disk : world :=
  {| http_get := get;
     get_records := fun _ _ _ => [];
     text_records := fun _ => [];
     fs_open := fun _ => None;
     fs_write := fun _ written _ =>
       if (String.length written =? 0)%nat then None
       else Some (OSError "[Errno 28] No space left on device");
     fs_close := fun _ _ => None |}.

(** [urlparse] with an identity in place of NFKC and a bracket check that
    accepts: neither matters on the URLs used below. *)
Definition urlparse : str -> result Urllib.ParseResult :=
  Urllib.urlparse (fun s => s) (fun _ => Return tt).

Definition args (url : str) (files : list str) (out : option str)
  : Namespace :=
  {| args_url := url; args_files := files; args_timeout := 5;
     args_verbose := false; args_output := out |}.

(** What [argparse] answers on two command lines: a URL alone gives the
    defaults, and [-t] with a value that is no integer is a usage error,
    after which the process exits with status 2.  No other command line is
    asked of this stub; it answers them all like the second. *)
Definition parse_args (argv : list str) : parse_outcome :=
  match argv with
  | [url] =>
      if startswith url "-" then Exits 2
      else Parsed (args url COMMON_FILES None)
  | _ => Exits 2
  end.

End Stub.


(** ** What a scan observes

    The notions in which the properties of the scan are stated. *)

(** The body a probe reports for an answer of the world: the text of a
    response whose status is 200, and nothing for any other answer. *)
Definition found_body (o : get_outcome) : option str :=
  match o with
  | Responds r => if (status_code r =? 200)%Z then Some (text r) else None
  | GetRaises _ => None
  end.

(** The answers of the world to one GET per file name, in the order of the
    list, each with the URL asked, when [before] lists the requests sent
    earlier. *)
Fixpoint probes (W : world) (url : str) (timeout : Z) (files : list str)
    (before : list (str * Z)) : list (str * get_outcome) :=
  match files with
  | [] => []
  | filename :: files' =>
      let target_url := urljoin url filename in
      (target_url, http_get W before target_url timeout)
        :: probes W url timeout files' (before ++ [(target_url, timeout)])%list
  end.

(** The found ones among the probes, in probe order: URL and body. *)
Definition found_results (l : list (str * get_outcome)) : list (str * str) :=
  flat_map
    (fun p => match found_body (snd p) with
              | Some body => [(fst p, body)]
              | None => []
              end) l.

(** Assigning each found result in turn to its URL. *)
Definition insert_all (found : list (str * str)) (d : Dict.t (option str))
  : Dict.t (option str) :=
  fold_left (fun d p => Dict.set d (fst p) (Some (snd p))) found d.

(** Each string at the place of its first occurrence. *)
Fixpoint first_occurrences (l : list str) : list str :=
  match l with
  | [] => []
  | k :: l' => k :: remove string_dec k (first_occurrences l')
  end.

(** The body of the last result for a URL. *)
Definition last_body (url : str) (found : list (str * str)) : option str :=
  option_map snd (List.find (fun p => fst p =? url) (rev found)).


(** The part of [main_parsed] after the loop: the summary in the log (lines
    130-135) and the report file (lines 137-151). *)
Definition log_summary (found_files : Dict.t (option str)) : M unit :=
  (if Dict.truthy found_files then
     logging_info "The following potentially sensitive files were found:" ;;
     for_each (Dict.items found_files) tt
       (fun '(url, _) _ => logging_info ("- " ++ url))
   else
     logging_info "No sensitive files were found.")%monad.

Definition after_scan (W : world) (args : Namespace)
    (found_files : Dict.t (option str)) : M unit :=
  (log_summary found_files ;;
   match args_output args with
   | Some path => if truthy path then write_report W path found_files else ret tt
   | None => ret tt
   end)%monad.




(** File operations and log calls raise no [SystemExit] and send no
    request. *)
Definition benign {A} (c : M A) : Prop :=
  forall s,
    match c s with
    | (Raise (SystemExit _), _) => False
    | (_, s') => sent s' = sent s
    end.

(** A computation that changes no file other than the one at [path]. *)
Definition confined (path : str) {A} (c : M A) : Prop :=
  forall (s : state) (p : str),
    p <> path -> Dict.get (disk (snd (c s))) p = Dict.get (disk s) p.

(** A computation whose result and whose effect on the disk depend on the
    state it starts from through the disk only. *)
Definition disk_determined {A} (c : M A) : Prop :=
  forall s1 s2 : state,
    disk s1 = disk s2 ->
    fst (c s1) = fst (c s2) /\ disk (snd (c s1)) = disk (snd (c s2)).

(** The [Namespace] of a command line that holds the URL alone: every
    option takes the default that [setup_argparse] gives it (main.py, lines
    33-38). *)
Definition default_args (url : str) : Namespace :=
  {| args_url := url;
     args_files := COMMON_FILES;
     args_timeout := 5;
     args_verbose := false;
     args_output := None |}.

(** * Properties *)

Unset Implicit Arguments.

(** ** Strings *)

Section StringFacts.


Lemma append_assoc (a b c : str) : (a ++ b) ++ c = a ++ (b ++ c).
Proof. induction a as [|x a IH]; simpl; [reflexivity | now rewrite IH]. Qed.

Lemma length_append (a b : str) :
  String.length (a ++ b) = (String.length a + String.length b)%nat.
Proof. induction a as [|x a IH]; simpl; [reflexivity | now rewrite IH]. Qed.

Lemma substring_0_0 (s : str) : substring 0 0 s = "".
Proof. destruct s; reflexivity. Qed.

Lemma substring_all (s : str) : substring 0 (String.length s) s = s.
Proof. induction s as [|a s IH]; simpl; [reflexivity | now rewrite IH]. Qed.

(** A string is its first [n] characters followed by the rest. *)
Lemma split_at (n : nat) : forall s : str,
  (n <= String.length s)%nat ->
  s = slice_to n s ++ substring n (String.length s - n) s.
Proof.
  unfold slice_to.
  induction n as [|n IH]; intros s Hn.
  - rewrite substring_0_0, Nat.sub_0_r, substring_all. reflexivity.
  - destruct s as [|a s]; simpl in Hn; [lia|].
    simpl. f_equal. apply IH. lia.
Qed.

Lemma substring_app_r (a b : str) :
  substring (String.length a) (String.length b) (a ++ b) = b.
Proof. induction a as [|x a IH]; simpl; [apply substring_all | exact IH]. Qed.

Lemma slice_to_app (a b : str) : slice_to (String.length a) (a ++ b) = a.
Proof.
  unfold slice_to.
  induction a as [|x a IH]; simpl; [apply substring_0_0 | now rewrite IH].
Qed.

(** [endswith] is what its name says. *)
Lemma endswith_iff (s p : str) :
  endswith s p = true <-> exists s', s = s' ++ p.
Proof.
  unfold endswith. rewrite andb_true_iff, Nat.leb_le, String.eqb_eq. split.
  - intros [Hle Hsub].
    exists (slice_to (String.length s - String.length p) s).
    rewrite (split_at (String.length s - String.length p) s) at 1 by lia.
    f_equal.
    replace (String.length s - (String.length s - String.length p))%nat
      with (String.length p) by lia.
    exact Hsub.
  - intros [s' ->]. rewrite length_append. split; [lia|].
    replace (String.length s' + String.length p - String.length p)%nat
      with (String.length s') by lia.
    apply substring_app_r.
Qed.

Lemma endswith_false (s p : str) :
  endswith s p = false <-> forall s', s <> s' ++ p.
Proof.
  split.
  - intros H s' E.
    assert (endswith s p = true) by (apply endswith_iff; now exists s').
    congruence.
  - intros H. destruct (endswith s p) eqn:E; [|reflexivity].
    apply endswith_iff in E. destruct E as [s' E]. now elim (H s').
Qed.

Lemma drop_last_snoc (s : str) (c : ascii) :
  drop_last (s ++ String c "") = s.
Proof.
  unfold drop_last. rewrite length_append. simpl.
  replace (String.length s + 1 - 1)%nat with (String.length s) by lia.
  apply slice_to_app.
Qed.

Lemma startswith_slash (s : str) :
  startswith s "/" = true <-> exists s', s = String "/" s'.
Proof.
  destruct s as [|a s]; cbn [startswith].
  - split; [intros H; discriminate H | intros [s' H]; discriminate H].
  - destruct (Ascii.eqb_spec a "/") as [->|Hne]; cbn [andb].
    + split; [intros _; now exists s | intros _; now destruct s].
    + split; [intros H; discriminate H | intros [s' H]; congruence].
Qed.

Lemma slice_from_1 (a : ascii) (s : str) : slice_from 1 (String a s) = s.
Proof.
  unfold slice_from. simpl. rewrite Nat.sub_0_r. apply substring_all.
Qed.

Lemma contains_slash (a : ascii) :
  contains a "/" = true <-> a = "/"%char.
Proof.
  cbn [contains]. rewrite orb_false_r, Ascii.eqb_eq. split; congruence.
Qed.

(** Stripping every trailing slash: one slash at the end makes no
    difference, and a string that ends in no slash is left as it is. *)
Lemma rstrip_snoc_slash (s : str) : rstrip "/" (s ++ "/") = rstrip "/" s.
Proof.
  induction s as [|a s IH]; [reflexivity|].
  change (String a s ++ "/") with (String a (s ++ "/")).
  cbn [rstrip]. now rewrite IH.
Qed.

Lemma rstrip_no_slash (s : str) :
  endswith s "/" = false -> rstrip "/" s = s.
Proof.
  rewrite endswith_false.
  induction s as [|a s IH]; intros H; [reflexivity|].
  cbn [rstrip]. destruct s as [|b s].
  - cbn [rstrip]. destruct (contains a "/") eqn:E; [|reflexivity].
    apply contains_slash in E. subst a. now elim (H "").
  - rewrite IH; [reflexivity|].
    intros s' E. apply (H (String a s')). simpl. now rewrite <- E.
Qed.

Lemma lstrip_no_slash (s : str) :
  startswith s "/" = false -> lstrip "/" s = s.
Proof.
  destruct s as [|a s]; [reflexivity|]. intros H. cbn [lstrip].
  destruct (contains a "/") eqn:E; [|reflexivity].
  apply contains_slash in E. subst a.
  assert (startswith (String "/" s) "/" = true)
    by (apply startswith_slash; now exists s).
  congruence.
Qed.

End StringFacts.

(** ** The URL joiner *)

Section UrlJoin.

(** X1: [urljoin] always inserts one slash, and removes at most one slash
    on each side of it: the result is the base without at most one trailing
    slash, a slash, and the file name without at most one leading slash. *)
Lemma urljoin_strips_one (base url : str) :
  exists base' url',
    urljoin base url = base' ++ "/" ++ url'
    /\ (base = base' \/ base = base' ++ "/")
    /\ (url = url' \/ url = "/" ++ url').
Proof.
  unfold urljoin.
  destruct (endswith base "/") eqn:Eb; destruct (startswith url "/") eqn:Eu.
  - apply endswith_iff in Eb. destruct Eb as [b ->].
    apply startswith_slash in Eu. destruct Eu as [u ->].
    exists b, u. rewrite drop_last_snoc, slice_from_1. auto.
  - apply endswith_iff in Eb. destruct Eb as [b ->].
    exists b, url. rewrite drop_last_snoc. auto.
  - apply startswith_slash in Eu. destruct Eu as [u ->].
    exists base, u. rewrite slice_from_1. auto.
  - exists base, url. auto.
Qed.

Lemma base_side (base : str) :
  endswith base "//" = false ->
  (if endswith base "/" then drop_last base else base) = rstrip "/" base
  /\ endswith (rstrip "/" base) "/" = false.
Proof.
  intros H2. destruct (endswith base "/") eqn:E.
  - apply endswith_iff in E. destruct E as [b ->].
    assert (Hb : endswith b "/" = false).
    { apply endswith_false. intros b' ->.
      rewrite endswith_false in H2. apply (H2 b').
      now rewrite append_assoc. }
    rewrite drop_last_snoc, rstrip_snoc_slash, (rstrip_no_slash b Hb).
    split; [reflexivity | exact Hb].
  - rewrite (rstrip_no_slash base E). split; [reflexivity | exact E].
Qed.

Lemma file_side (url : str) :
  startswith url "//" = false ->
  (if startswith url "/" then slice_from 1 url else url) = lstrip "/" url
  /\ startswith (lstrip "/" url) "/" = false.
Proof.
  intros H2. destruct (startswith url "/") eqn:E.
  - apply startswith_slash in E. destruct E as [u ->].
    assert (Hu : startswith u "/" = false).
    { cbn [startswith] in H2. rewrite Ascii.eqb_refl in H2. exact H2. }
    rewrite slice_from_1.
    assert (L : lstrip "/" (String "/" u) = lstrip "/" u) by reflexivity.
    rewrite L, (lstrip_no_slash u Hu). split; [reflexivity | exact Hu].
  - rewrite (lstrip_no_slash url E). split; [reflexivity | exact E].
Qed.

End UrlJoin.

(** C3, as the specification states it, fails: [urljoin] removes one
    trailing slash of the base and one leading slash of the file name, not
    every one, so a base that ends in two slashes keeps one of them next to
    the separator. *)
Lemma urljoin_keeps_second_slash :
  urljoin "http://example.com//" ".env" = "http://example.com//.env"
  /\ spec_join "http://example.com//" ".env" = "http://example.com/.env"
  /\ ~ (forall base url : str, urljoin base url = spec_join base url).
Proof.
  split; [reflexivity|]. split; [reflexivity|].
  intros H. specialize (H "http://example.com//" ".env").
  vm_compute in H. discriminate H.
Qed.

(** C3, amended: for every base that does not end in two slashes and every
    file name that does not begin with two slashes, [urljoin] equals the
    join of the base stripped of its trailing slashes and the file name
    stripped of its leading slashes with a single slash, and that slash is
    the only one between the two: the left part ends in no slash and the
    right part begins with none.  [urljoin] is a total function of its two
    arguments. *)
Theorem urljoin_one_separator (base url : str) :
  endswith base "//" = false ->
  startswith url "//" = false ->
  urljoin base url = spec_join base url
  /\ endswith (rstrip "/" base) "/" = false
  /\ startswith (lstrip "/" url) "/" = false.
Proof.
  intros Hb Hu.
  destruct (base_side base Hb) as [Eb Nb].
  destruct (file_side url Hu) as [Eu Nu].
  unfold urljoin, spec_join. rewrite Eb, Eu. auto.
Qed.

Lemma urljoin_one_separator_witness :
  urljoin "http://example.com/" "/.env" = spec_join "http://example.com/" "/.env"
  /\ endswith (rstrip "/" "http://example.com/") "/" = false
  /\ startswith (lstrip "/" "/.env") "/" = false.
Proof.
  apply (urljoin_one_separator "http://example.com/" "/.env"); reflexivity.
Defined.

(** ** The URL validator *)

(** C10: [validate_url] returns a boolean for every string and for every
    behaviour of the parser, and never raises; when the parser raises, the
    exception is caught and the answer is [False]. *)
Theorem validate_url_total
    (urlparse : str -> result Urllib.ParseResult) (url : str) :
  (exists b : bool, validate_url urlparse url = Return b)
  /\ (forall e, urlparse url = Raise e ->
                validate_url urlparse url = Return false).
Proof.
  unfold validate_url. split.
  - destruct (urlparse url) as [r|e]; eauto.
  - intros e ->. reflexivity.
Qed.

(** The standard parser does raise on some strings, and [validate_url]
    answers [False] there. *)
Example validate_url_unbalanced_bracket :
  Stub.urlparse "http://[::1" = Raise (Error (ValueError "Invalid IPv6 URL"))
  /\ validate_url Stub.urlparse "http://[::1" = Return false.
Proof. split; reflexivity. Qed.

Lemma validate_url_true_iff
    (urlparse : str -> result Urllib.ParseResult) (url : str) :
  validate_url urlparse url = Return true <->
  exists r, urlparse url = Return r
            /\ Urllib.scheme r <> "" /\ Urllib.netloc r <> "".
Proof.
  unfold validate_url. split.
  - destruct (urlparse url) as [r|e]; [|discriminate].
    cbn [forallb]. intros H. exists r. split; [reflexivity|].
    destruct (Urllib.scheme r); [discriminate|].
    destruct (Urllib.netloc r); [discriminate|].
    split; discriminate.
  - intros [r [-> [Hs Hn]]]. cbn [forallb].
    destruct (Urllib.scheme r); [congruence|].
    destruct (Urllib.netloc r); [congruence|]. reflexivity.
Qed.

Lemma hostinfo_needs_netloc (r : Urllib.ParseResult) :
  fst (Urllib._hostinfo r) <> "" -> Urllib.netloc r <> "".
Proof.
  intros H E. apply H. unfold Urllib._hostinfo. now rewrite E.
Qed.

(** C6, as the specification states it, fails: [validate_url] looks at the
    network location of the parse, not at the host in it.  [http://:80]
    parses into the scheme [http] and the network location [:80], which
    holds a port and no host ([result.hostname] is [None]), and is
    accepted. *)
Lemma validate_url_accepts_hostless :
  validate_url Stub.urlparse "http://:80" = Return true
  /\ (exists r, Stub.urlparse "http://:80" = Return r
                /\ Urllib.scheme r = "http"
                /\ Urllib.netloc r = ":80"
                /\ Urllib._hostinfo r = ("", Some "80"))
  /\ ~ (forall url : str,
          validate_url Stub.urlparse url = Return true ->
          exists r, Stub.urlparse url = Return r
                    /\ Urllib.scheme r <> ""
                    /\ fst (Urllib._hostinfo r) <> "").
Proof.
  split; [reflexivity|]. split.
  - eexists. repeat split; reflexivity.
  - intros H. destruct (H "http://:80" eq_refl) as (r & Er & _ & Hh).
    vm_compute in Er. injection Er as <-. now apply Hh.
Qed.

(** C6, amended: with the standard library's parser, whatever the two
    library checks it rests on answer, [validate_url] returns [True]
    exactly for the strings that parse into a non-empty scheme and a
    non-empty network location (the [netloc] of the parse, which may hold
    user information or a port and name no host); a parse with a scheme and
    a host is therefore accepted.  It accepts [http://example.com] and
    [https://example.com/path]; it rejects [example.com], which parses with
    an empty scheme, the empty string, and [http://], which parses with an
    empty network location. *)
Theorem validate_url_scheme_and_netloc
    (normalize_NFKC : str -> str)
    (_check_bracketed_netloc : str -> result unit) :
  let urlparse := Urllib.urlparse normalize_NFKC _check_bracketed_netloc in
  (forall url : str,
      validate_url urlparse url = Return true <->
      exists r, urlparse url = Return r
                /\ Urllib.scheme r <> "" /\ Urllib.netloc r <> "")
  /\ (forall (url : str) (r : Urllib.ParseResult),
        urlparse url = Return r ->
        Urllib.scheme r <> "" ->
        fst (Urllib._hostinfo r) <> "" ->
        validate_url urlparse url = Return true)
  /\ validate_url urlparse "http://example.com" = Return true
  /\ validate_url urlparse "https://example.com/path" = Return true
  /\ validate_url urlparse "example.com" = Return false
  /\ option_map Urllib.scheme
       (match urlparse "example.com" with Return r => Some r | Raise _ => None end)
     = Some ""
  /\ validate_url urlparse "" = Return false
  /\ validate_url urlparse "http://" = Return false
  /\ option_map Urllib.netloc
       (match urlparse "http://" with Return r => Some r | Raise _ => None end)
     = Some "".
Proof.
  intros urlparse. split; [|split].
  - intros url. apply validate_url_true_iff.
  - intros url r Er Hs Hh. apply validate_url_true_iff.
    exists r. repeat split; [exact Er | exact Hs |].
    now apply hostinfo_needs_netloc.
  - repeat split; reflexivity.
Qed.

(** ** Logging *)

(** A log call returns and changes nothing but the records. *)
Lemma logging_log_run (l : log_level) (msg : str) (s : state) :
  exists s',
    logging_log l msg s = (Return tt, s')
    /\ sent s' = sent s
    /\ disk s' = disk s
    /\ log_threshold s' = log_threshold s.
Proof.
  unfold logging_log.
  destruct (level_no (log_threshold s) <=? level_no l)%Z;
    eexists; repeat split; reflexivity.
Qed.

Lemma response_text_run (W : world) (r : Response) (s : state) :
  exists s',
    response_text W r s = (Return (text r), s')
    /\ sent s' = sent s
    /\ disk s' = disk s
    /\ log_threshold s' = log_threshold s.
Proof. eexists. repeat split; reflexivity. Qed.

Ltac log_step l msg s s' E :=
  let Hs := fresh "Hsent" in
  let Hd := fresh "Hdisk" in
  let Ht := fresh "Hlevel" in
  destruct (logging_log_run l msg s) as (s' & E & Hs & Hd & Ht);
  rewrite E; cbv beta iota.

(** ** One probe *)

Section Probe.

Variable W : world.

(** What a probe returns and what it leaves behind: the answer is decided
    by [found_body], one request is added to those sent, and neither the
    disk nor the logger's level changes. *)
Lemma check_file_exists_run (url filename : str) (timeout : Z) (s : state) :
  exists s',
    check_file_exists W url filename timeout s =
      (Return
         match found_body (http_get W (sent s) (urljoin url filename) timeout)
         with
         | Some body => (true, urljoin url filename, Some body)
         | None => (false, urljoin url filename, None)
         end, s')
    /\ sent s' = (sent s ++ [(urljoin url filename, timeout)])%list
    /\ disk s' = disk s
    /\ log_threshold s' = log_threshold s.
Proof.
  unfold check_file_exists, try_except, bind, ret,
    logging_debug, logging_info, logging_error.
  set (target := urljoin url filename).
  log_step DEBUG ("Checking for: " ++ target) s s1 E1.
  unfold requests_get. rewrite Hsent.
  set (s2 := {| log_threshold := log_threshold s1;
                log_records :=
                  (log_records s1
                   ++ handled (log_threshold s1)
                        (get_records W (sent s) target timeout))%list;
                sent := (sent s ++ [(target, timeout)])%list;
                disk := disk s1 |}).
  destruct (http_get W (sent s) target timeout) as [r|e];
    cbv beta iota; cbn [found_body].
  - unfold lift, raise_for_status.
    destruct (Z.eqb_spec (status_code r) 200) as [E|N].
    + rewrite E.
      cbn [Z.leb Z.ltb Z.compare Pos.compare Pos.compare_cont andb].
      cbv beta iota.
      match goal with
      | |- context [logging_log INFO ?m s2] => log_step INFO m s2 s3 E3
      end.
      destruct (response_text_run W r s3) as (s4 & E4 & Hs4 & Hd4 & Ht4).
      rewrite E4.
      exists s4; subst s2; cbn [sent disk log_threshold] in *;
        repeat split; congruence.
    + destruct ((400 <=? status_code r)%Z && (status_code r <? 500)%Z);
        [|destruct ((500 <=? status_code r)%Z && (status_code r <? 600)%Z)];
        cbv beta iota;
        match goal with
        | |- context [logging_log DEBUG ?m s2] => log_step DEBUG m s2 s3 E3
        end;
        exists s3; subst s2; cbn [sent disk log_threshold] in *;
        repeat split; congruence.
  - destruct e; cbv beta iota;
      match goal with
      | |- context [logging_log ?l ?m s2] => log_step l m s2 s3 E3
      end;
      exists s3; subst s2; cbn [sent disk log_threshold] in *;
      repeat split; congruence.
Qed.

End Probe.

(** ** The scan loop *)

Section Scan.

Variable W : world.

Lemma scan_cons (url filename : str) (files : list str) (timeout : Z)
    (d : Dict.t (option str)) (s : state) :
  scan W url (filename :: files) timeout d s =
    match check_file_exists W url filename timeout s with
    | (Return (true, url', content), s') =>
        scan W url files timeout (Dict.set d url' content) s'
    | (Return (false, _, _), s') => scan W url files timeout d s'
    | (Raise e, s') => (Raise e, s')
    end.
Proof.
  unfold scan. cbn [for_each]. unfold bind at 1 2.
  destruct (check_file_exists W url filename timeout s) as [[[[[] u] c]|e] s'];
    reflexivity.
Qed.

(** The loop returns the dictionary it started from with the found results
    assigned in probe order, after sending one request per file name, in
    the order of the list. *)
Lemma scan_run (url : str) (timeout : Z) (files : list str) :
  forall (d : Dict.t (option str)) (s : state),
  exists s',
    scan W url files timeout d s =
      (Return (insert_all
                 (found_results (probes W url timeout files (sent s))) d), s')
    /\ sent s' =
       (sent s ++ map (fun filename => (urljoin url filename, timeout)) files)%list
    /\ disk s' = disk s
    /\ log_threshold s' = log_threshold s.
Proof.
  induction files as [|filename files IH]; intros d s.
  - exists s. cbn. rewrite app_nil_r. auto.
  - rewrite scan_cons.
    destruct (check_file_exists_run W url filename timeout s)
      as (s1 & E1 & Hs1 & Hd1 & Ht1).
    rewrite E1. cbn [probes found_results flat_map fst snd].
    fold (found_results
            (probes W url timeout files
               (sent s ++ [(urljoin url filename, timeout)])%list)).
    rewrite <- Hs1. unfold insert_all. rewrite fold_left_app.
    destruct (found_body (http_get W (sent s) (urljoin url filename) timeout))
      as [body|]; cbn [fold_left fst snd];
      [ destruct (IH (Dict.set d (urljoin url filename) (Some body)) s1)
          as (s2 & E2 & Hs2 & Hd2 & Ht2)
      | destruct (IH d s1) as (s2 & E2 & Hs2 & Hd2 & Ht2) ];
      exists s2; unfold insert_all in E2; rewrite E2;
      (split; [reflexivity|]);
      rewrite Hs2, Hs1, <- app_assoc; cbn [map app];
      repeat split; congruence.
Qed.

End Scan.

(** ** Dictionaries *)

Section DictFacts.

Variable V : Type.
Implicit Types (d : Dict.t V) (k : str) (v : V).

Lemma keys_set_present d k v :
  In k (Dict.keys d) -> Dict.keys (Dict.set d k v) = Dict.keys d.
Proof.
  unfold Dict.keys. induction d as [|[k' v'] d IH]; cbn; [tauto|].
  intros [->|H].
  - now rewrite String.eqb_refl.
  - destruct (k' =? k); cbn; [reflexivity | now rewrite IH].
Qed.

Lemma keys_set_absent d k v :
  ~ In k (Dict.keys d) ->
  Dict.keys (Dict.set d k v) = (Dict.keys d ++ [k])%list.
Proof.
  unfold Dict.keys. induction d as [|[k' v'] d IH]; cbn; [reflexivity|].
  intros H. destruct (String.eqb_spec k' k) as [->|N]; [tauto|].
  cbn. rewrite IH; tauto.
Qed.

Lemma get_set d k v k' :
  Dict.get (Dict.set d k v) k' = if k =? k' then Some v else Dict.get d k'.
Proof.
  induction d as [|[k0 v0] d IH]; cbn.
  - reflexivity.
  - destruct (String.eqb_spec k0 k) as [->|N]; cbn.
    + destruct (k =? k'); reflexivity.
    + rewrite IH. destruct (String.eqb_spec k0 k') as [->|N']; [|reflexivity].
      destruct (String.eqb_spec k k'); [congruence | reflexivity].
Qed.

Lemma NoDup_keys_set d k v :
  NoDup (Dict.keys d) -> NoDup (Dict.keys (Dict.set d k v)).
Proof.
  intros H. destruct (in_dec string_dec k (Dict.keys d)) as [I|N].
  - now rewrite keys_set_present.
  - rewrite keys_set_absent by assumption.
    apply NoDup_app; [assumption | repeat constructor; cbn; tauto |].
    intros x Hx [<-|[]]. contradiction.
Qed.

End DictFacts.

(** ** First occurrences *)

Section FirstOccurrences.

Implicit Types (k : str) (l : list str).

Lemma remove_twice k l :
  remove string_dec k (remove string_dec k l) = remove string_dec k l.
Proof. apply notin_remove, remove_In. Qed.

Lemma NoDup_remove_str k l :
  NoDup l -> NoDup (remove string_dec k l).
Proof.
  induction 1 as [|x l Hx Hl IH]; cbn; [constructor|].
  destruct (string_dec k x); [assumption|].
  constructor; [|assumption].
  intros H. apply in_remove in H. tauto.
Qed.


Lemma NoDup_first_occurrences l : NoDup (first_occurrences l).
Proof.
  induction l as [|x l IH]; cbn; constructor.
  - apply remove_In.
  - now apply NoDup_remove_str.
Qed.

Lemma first_occurrences_NoDup l : NoDup l -> first_occurrences l = l.
Proof.
  induction 1 as [|x l Hx Hl IH]; cbn; [reflexivity|].
  rewrite IH. f_equal. now apply notin_remove.
Qed.

Lemma remove_first_occurrences_again k (a r : list str) :
  remove string_dec k (first_occurrences (a ++ k :: r))
  = remove string_dec k (first_occurrences (a ++ r)).
Proof.
  induction a as [|x a IH]; cbn [app first_occurrences].
  - cbn [remove]. destruct (string_dec k k); [|congruence].
    apply remove_twice.
  - cbn [remove]. destruct (string_dec k x) as [->|N].
    + rewrite !remove_twice. exact IH.
    + f_equal.
      rewrite (remove_remove_comm string_dec), IH.
      apply remove_remove_comm.
Qed.

(** A string met again does not move. *)
Lemma first_occurrences_again k (a r : list str) :
  In k a -> first_occurrences (a ++ k :: r) = first_occurrences (a ++ r).
Proof.
  induction a as [|x a IH]; cbn [app first_occurrences In]; [tauto|].
  intros H. f_equal. destruct (string_dec x k) as [->|N].
  - apply remove_first_occurrences_again.
  - rewrite IH; [reflexivity | tauto].
Qed.

End FirstOccurrences.

(** ** The report *)

Section Report.

Implicit Types (d : Dict.t (option str)) (found : list (str * str)).

Lemma insert_all_snoc found d (u b : str) :
  insert_all (found ++ [(u, b)]) d = Dict.set (insert_all found d) u (Some b).
Proof. unfold insert_all. now rewrite fold_left_app. Qed.


(** The keys of the report are the URLs found, each at the place where it
    was first inserted. *)
Lemma keys_insert_all found :
  forall d, NoDup (Dict.keys d) ->
  Dict.keys (insert_all found d)
  = first_occurrences (Dict.keys d ++ map fst found).
Proof.
  induction found as [|[u b] found IH]; intros d H; cbn [insert_all fold_left map fst snd].
  - rewrite app_nil_r. symmetry. now apply first_occurrences_NoDup.
  - fold (insert_all found (Dict.set d u (Some b))).
    rewrite IH by now apply NoDup_keys_set.
    destruct (in_dec string_dec u (Dict.keys d)) as [I|N].
    + rewrite keys_set_present by assumption.
      symmetry. now apply first_occurrences_again.
    + rewrite keys_set_absent by assumption.
      now rewrite <- app_assoc.
Qed.

(** A key of the report holds the body of the last result for it. *)
Lemma get_insert_all found d (u : str) :
  Dict.get (insert_all found d) u =
    match last_body u found with
    | Some b => Some (Some b)
    | None => Dict.get d u
    end.
Proof.
  induction found as [|[u' b'] found IH] using rev_ind.
  - reflexivity.
  - rewrite insert_all_snoc, get_set. unfold last_body.
    rewrite rev_app_distr. cbn [rev app List.find fst].
    destruct (u' =? u); [reflexivity | exact IH].
Qed.



End Report.

(** ** Sequencing *)

Lemma bind_return {A B} (c : M A) (k : A -> M B) (s s' : state) (a : A) :
  c s = (Return a, s') -> bind c k s = k a s'.
Proof. unfold bind. now intros ->. Qed.

Lemma bind_raise {A B} (c : M A) (k : A -> M B) (s s' : state) (e : raised) :
  c s = (Raise e, s') -> bind c k s = (Raise e, s').
Proof. unfold bind. now intros ->. Qed.

Lemma scan_app (W : world) (url : str) (timeout : Z) (a b : list str) :
  forall (d : Dict.t (option str)) (s : state),
  scan W url (a ++ b) timeout d s =
    match scan W url a timeout d s with
    | (Return d1, s1) => scan W url b timeout d1 s1
    | (Raise e, s1) => (Raise e, s1)
    end.
Proof.
  induction a as [|x a IH]; intros d s; [reflexivity|].
  cbn [app]. rewrite !scan_cons.
  destruct (check_file_exists W url x timeout s) as [[[[[] u] c]|e] s'];
    [apply IH | apply IH | reflexivity].
Qed.

(** ** The whole run *)

Section Main.

Variable urlparse : str -> result Urllib.ParseResult.
Variable W : world.

Lemma log_each_run (items : list (str * option str)) :
  forall s, exists s',
    for_each items tt
      (fun '(url, _) _ => logging_info ("- " ++ url)) s = (Return tt, s')
    /\ sent s' = sent s
    /\ disk s' = disk s
    /\ log_threshold s' = log_threshold s.
Proof.
  induction items as [|[u c] items IH]; intros s; cbn [for_each].
  - exists s. unfold ret. auto.
  - destruct (logging_log_run INFO ("- " ++ u) s) as (s1 & E1 & H1 & H2 & H3).
    rewrite (bind_return (logging_info ("- " ++ u)) _ _ _ _ E1).
    destruct (IH s1) as (s2 & E2 & H4 & H5 & H6).
    exists s2. repeat split; congruence.
Qed.

Lemma main_invalid (args : Namespace) (s : state) :
  validate_url urlparse (args_url args) = Return false ->
  exists s',
    main_parsed urlparse W args s = (Raise (SystemExit 1), s')
    /\ sent s' = sent s /\ disk s' = disk s.
Proof.
  intros H. unfold main_parsed.
  assert (L : exists s0,
             (if args_verbose args then set_level DEBUG else ret tt) s
             = (Return tt, s0)
             /\ sent s0 = sent s /\ disk s0 = disk s).
  { destruct (args_verbose args); eexists; repeat split; reflexivity. }
  destruct L as (s0 & E0 & Hs0 & Hd0).
  rewrite (bind_return _ _ _ _ _ E0).
  rewrite H. unfold lift at 1. unfold bind at 1. cbn [negb].
  unfold logging_error.
  match goal with
  | |- context [logging_log ERROR ?m] =>
      destruct (logging_log_run ERROR m s0) as (s1 & E1 & Hs1 & Hd1 & _)
  end.
  unfold bind at 1. unfold bind at 1. rewrite E1. unfold sys_exit, raise.
  exists s1. repeat split; congruence.
Qed.

Lemma main_valid (args : Namespace) (s : state) :
  validate_url urlparse (args_url args) = Return true ->
  exists s',
    main_parsed urlparse W args s =
      after_scan W args
        (insert_all
           (found_results
              (probes W (args_url args) (args_timeout args) (args_files args)
                 (sent s)))
           (Dict.empty _)) s'
    /\ sent s' =
       (sent s ++ map (fun filename =>
                         (urljoin (args_url args) filename, args_timeout args))
                    (args_files args))%list
    /\ disk s' = disk s.
Proof.
  intros H. unfold main_parsed.
  assert (L : exists s0,
             (if args_verbose args then set_level DEBUG else ret tt) s
             = (Return tt, s0)
             /\ sent s0 = sent s /\ disk s0 = disk s).
  { destruct (args_verbose args); eexists; repeat split; reflexivity. }
  destruct L as (s0 & E0 & Hs0 & Hd0).
  rewrite (bind_return _ _ _ _ _ E0).
  rewrite H. unfold lift at 1. unfold bind at 1. cbn [negb].
  unfold bind at 1. unfold ret at 1.
  match goal with
  | |- context [logging_info ?m] =>
      destruct (logging_log_run INFO m s0) as (s1 & E1 & Hs1 & Hd1 & _);
      rewrite (bind_return (logging_info m) _ _ _ _ E1)
  end.
  destruct (scan_run W (args_url args) (args_timeout args) (args_files args)
              (Dict.empty _) s1) as (s2 & E2 & Hs2 & Hd2 & _).
  rewrite (bind_return _ _ _ _ _ E2).
  exists s2. split.
  - unfold after_scan, log_summary. now rewrite Hs1, Hs0.
  - split; congruence.
Qed.

End Main.

(** ** The report file *)

Section ReportFile.

Variable W : world.

Lemma benign_ret {A} (a : A) : benign (ret a).
Proof. intros s. reflexivity. Qed.

Lemma benign_bind {A B} (c : M A) (k : A -> M B) :
  benign c -> (forall a, benign (k a)) -> benign (bind c k).
Proof.
  intros Hc Hk s. specialize (Hc s). unfold bind.
  destruct (c s) as [[a|[e|code]] s1]; [|exact Hc|exact Hc].
  specialize (Hk a s1). destruct (k a s1) as [[b|[e|code]] s2];
    cbn beta iota in *; first [contradiction | congruence].
Qed.

Lemma benign_for_each {A B} (xs : list A) (body : A -> B -> M B) :
  (forall x acc, benign (body x acc)) ->
  forall acc, benign (for_each xs acc body).
Proof.
  intros Hb. induction xs as [|x xs IH]; intros acc; cbn [for_each].
  - apply benign_ret.
  - apply benign_bind; [apply Hb | exact IH].
Qed.

Lemma benign_try_finally {A} (body : M A) (fin : M unit) :
  benign body -> benign fin -> benign (try_finally body fin).
Proof.
  intros Hb Hf s. specialize (Hb s). unfold try_finally.
  destruct (body s) as [r s1]. specialize (Hf s1).
  destruct (fin s1) as [[[]|[e|code]] s2]; destruct r as [a|[e'|code']];
    cbn beta iota in *; first [contradiction | congruence].
Qed.

Lemma benign_log (l : log_level) (msg : str) : benign (logging_log l msg).
Proof.
  intros s. destruct (logging_log_run l msg s) as (s' & E & H & _).
  now rewrite E.
Qed.

Lemma benign_open (path : str) : benign (open_w W path).
Proof. intros s. unfold open_w. destruct (fs_open W path); reflexivity. Qed.

Lemma benign_write (path data : str) : benign (file_write W path data).
Proof.
  intros s. unfold file_write. destruct (fs_write W path _ data); reflexivity.
Qed.

Lemma benign_close (path : str) : benign (file_close W path).
Proof. intros s. unfold file_close. destruct (fs_close W path _); reflexivity. Qed.

(** Writing the report never raises, whatever the file system does, and
    sends no request. *)
Lemma write_report_returns (path : str) (found_files : Dict.t (option str))
    (s : state) :
  exists s',
    write_report W path found_files s = (Return tt, s') /\ sent s' = sent s.
Proof.
  unfold write_report, try_except.
  match goal with
  | |- context [match ?body s with _ => _ end] =>
      assert (Hb : benign body)
  end.
  { apply benign_bind; [|intros _; apply benign_log].
    unfold with_open_w.
    apply benign_bind; [apply benign_open | intros _].
    apply benign_try_finally; [|apply benign_close].
    destruct (Dict.truthy found_files); [|apply benign_write].
    apply benign_bind; [apply benign_write | intros _].
    apply benign_for_each. intros [u c] [].
    repeat (apply benign_bind; [apply benign_write | intros _]).
    apply benign_write. }
  specialize (Hb s).
  match goal with
  | H : match ?body s with _ => _ end |- _ =>
      destruct (body s) as [[[]|[err|code]] s1]
  end.
  - eauto.
  - unfold logging_error.
    match goal with
    | |- context [logging_log ERROR ?m s1] =>
        destruct (logging_log_run ERROR m s1) as (s2 & E2 & Hs2 & _)
    end.
    exists s2. split; [exact E2 | congruence].
  - contradiction.
Qed.

Lemma log_summary_run (found_files : Dict.t (option str)) (s : state) :
  exists s',
    log_summary found_files s = (Return tt, s')
    /\ sent s' = sent s /\ disk s' = disk s.
Proof.
  unfold log_summary. destruct (Dict.truthy found_files).
  - match goal with
    | |- context [logging_info ?m] =>
        destruct (logging_log_run INFO m s) as (s0 & E0 & Hs0 & Hd0 & _)
    end.
    destruct (log_each_run (Dict.items found_files) s0)
      as (s1 & E1 & Hs1 & Hd1 & _).
    exists s1. rewrite (bind_return (logging_info _) _ _ _ _ E0).
    repeat split; congruence.
  - match goal with
    | |- context [logging_info ?m] =>
        destruct (logging_log_run INFO m s) as (s1 & E1 & Hs1 & Hd1 & _)
    end.
    exists s1. repeat split; assumption.
Qed.

Lemma after_scan_returns (args : Namespace) (found_files : Dict.t (option str))
    (s : state) :
  exists s',
    after_scan W args found_files s = (Return tt, s') /\ sent s' = sent s.
Proof.
  unfold after_scan.
  destruct (log_summary_run found_files s) as (s1 & E1 & Hs1 & _).
  rewrite (bind_return _ _ _ _ _ E1).
  destruct (args_output args) as [path|]; [destruct (truthy path)|].
  - destruct (write_report_returns path found_files s1) as (s2 & E2 & Hs2).
    exists s2. split; congruence.
  - exists s1. split; [reflexivity | assumption].
  - exists s1. split; [reflexivity | assumption].
Qed.

End ReportFile.

(** ** The report file when the file system obliges *)

Section ReportWritten.

Variable W : world.
Variable path : str.
Hypothesis open_ok : fs_open W path = None.
Hypothesis write_ok : forall written data, fs_write W path written data = None.
Hypothesis close_ok : forall written, fs_close W path written = None.






End ReportWritten.



Lemma validate_url_cases (urlparse : str -> result Urllib.ParseResult)
    (url : str) :
  validate_url urlparse url = Return true
  \/ validate_url urlparse url = Return false.
Proof.
  unfold validate_url. destruct (urlparse url) as [r|e]; [|tauto].
  destruct (forallb _ _); tauto.
Qed.

Lemma run_valid (urlparse : str -> result Urllib.ParseResult) (W : world)
    (args : Namespace) (fs : Dict.t str) :
  validate_url urlparse (args_url args) = Return true ->
  exists s1 s2,
    main_parsed urlparse W args (initial_state fs) = (Return tt, s2)
    /\ run urlparse W args fs = (0%Z, s2)
    /\ after_scan W args
         (insert_all
            (found_results
               (probes W (args_url args) (args_timeout args) (args_files args)
                  []))
            (Dict.empty _)) s1 = (Return tt, s2)
    /\ sent s2 =
       map (fun filename =>
              (urljoin (args_url args) filename, args_timeout args))
         (args_files args).
Proof.
  intros H.
  destruct (main_valid urlparse W args (initial_state fs) H)
    as (s1 & E1 & Hs1 & _).
  cbn [sent initial_state] in E1, Hs1. cbn [app] in Hs1.
  destruct (after_scan_returns W args
              (insert_all
                 (found_results
                    (probes W (args_url args) (args_timeout args)
                       (args_files args) []))
                 (Dict.empty _)) s1) as (s2 & E2 & Hs2).
  exists s1, s2. unfold run. rewrite E1, E2.
  repeat split; congruence.
Qed.

Lemma run_invalid (urlparse : str -> result Urllib.ParseResult) (W : world)
    (args : Namespace) (fs : Dict.t str) :
  validate_url urlparse (args_url args) = Return false ->
  exists s', run urlparse W args fs = (1%Z, s') /\ sent s' = [].
Proof.
  intros H.
  destruct (main_invalid urlparse W args (initial_state fs) H)
    as (s' & E & Hs & _).
  exists s'. unfold run. rewrite E. split; [reflexivity | exact Hs].
Qed.

(** * The claims about probes and the scan *)


(** The probes of the specification's test: a served file, a missing one
    and an unreachable host. *)
Example check_file_exists_stubbed :
  fst (check_file_exists Stub.good_disk "http://test.local" ".env" 5
         (initial_state []))
  = Return (true, "http://test.local/.env", Some ("SECRET=1" ++ nl))
  /\ fst (check_file_exists Stub.good_disk "http://test.local" "missing.txt" 5
            (initial_state []))
     = Return (false, "http://test.local/missing.txt", None)
  /\ fst (check_file_exists Stub.good_disk "http://test.local" "down" 5
            (initial_state []))
     = Return (false, "http://test.local/down", None).
Proof. repeat split; reflexivity. Qed.



(** A scan over a path that times out and one that breaks inside the
    client still reaches the file behind them. *)
Example scan_goes_on_after_errors :
  let '(returned, s') :=
    scan Stub.good_disk "http://test.local" ["down"; "odd"; ".env"] 5
      (Dict.empty _) (initial_state []) in
  returned = Return [("http://test.local/.env", Some ("SECRET=1" ++ nl))]
  /\ sent s' = [("http://test.local/down", 5%Z);
                ("http://test.local/odd", 5%Z);
                ("http://test.local/.env", 5%Z)].
Proof. split; reflexivity. Qed.



(** A file name given twice, once with a leading slash, on a server whose
    answer changes: one entry, at the place of the first probe, with the
    body of the last. *)
Example report_of_repeated_name :
  fst (scan Stub.changing "http://test.local/" [".env"; "a"; "/.env"] 5
         (Dict.empty _) (initial_state []))
  = Return [("http://test.local/.env", Some "later");
            ("http://test.local/a", Some "other")].
Proof. reflexivity. Qed.

(** * The claims about the whole run *)

(** From the parsed arguments on, the process exits with a status other
    than 0 exactly when [validate_url] rejects the base URL; it then exits
    with status 1 and has sent no request.  In every other run it exits
    with status 0, whatever the network answers and whatever the file
    system does when the report is written. *)
Lemma exit_status
    (urlparse : str -> result Urllib.ParseResult) (W : world)
    (args : Namespace) (fs : Dict.t str) :
  (fst (run urlparse W args fs) <> 0%Z <->
   validate_url urlparse (args_url args) = Return false)
  /\ (validate_url urlparse (args_url args) = Return false ->
      fst (run urlparse W args fs) = 1%Z
      /\ sent (snd (run urlparse W args fs)) = [])
  /\ (validate_url urlparse (args_url args) = Return true ->
      fst (run urlparse W args fs) = 0%Z).
Proof.
  destruct (validate_url_cases urlparse (args_url args)) as [H|H].
  - destruct (run_valid urlparse W args fs H) as (s1 & s2 & _ & E & _).
    rewrite E, H. cbn [fst snd]. repeat split; congruence.
  - destruct (run_invalid urlparse W args fs H) as (s' & E & Hs).
    rewrite E, H. cbn [fst snd]. repeat split; congruence.
Qed.

Lemma process_parsed
    (parse_args : list str -> parse_outcome)
    (urlparse : str -> result Urllib.ParseResult) (W : world)
    (argv : list str) (fs : Dict.t str) (args : Namespace) :
  parse_args argv = Parsed args ->
  process parse_args urlparse W argv fs = run urlparse W args fs.
Proof. intros H. unfold process, main, run, exit_of. now rewrite H. Qed.

Lemma process_exits
    (parse_args : list str -> parse_outcome)
    (urlparse : str -> result Urllib.ParseResult) (W : world)
    (argv : list str) (fs : Dict.t str) (code : Z) :
  parse_args argv = Exits code ->
  process parse_args urlparse W argv fs = (code, initial_state fs).
Proof. intros H. unfold process, main. now rewrite H. Qed.

(** C7, as the specification states it, fails: the argument parser ends the
    process before the URL is looked at.  On the command line
    [http://example.com -t abc] the timeout is no integer, the process exits
    with status 2 and nothing logged or sent, and the URL is one that
    [validate_url] accepts. *)
Lemma usage_error_exits_2 :
  process Stub.parse_args Stub.urlparse Stub.good_disk
    ["http://example.com"; "-t"; "abc"] []
  = (2%Z, initial_state [])
  /\ validate_url Stub.urlparse "http://example.com" = Return true
  /\ ~ (fst (process Stub.parse_args Stub.urlparse Stub.good_disk
               ["http://example.com"; "-t"; "abc"] []) <> 0%Z
        <-> validate_url Stub.urlparse "http://example.com" = Return false).
Proof.
  split; [reflexivity|]. split; [reflexivity|].
  intros [H _]. assert (E : Return true = Return false :> result bool).
  { apply H. discriminate. }
  discriminate E.
Qed.

(** C7, amended: the process exits with a status other than 0 exactly when
    the argument parser ends it with such a status (2 after a usage error)
    or [validate_url] rejects the base URL of the parsed command line
    (status 1); in both cases no request has been sent.  A process that the
    parser ends exits with the parser's status in the state it started in;
    on every other run the process exits with status 0, whatever the
    network answers and whatever the file system does when the report is
    written. *)
Theorem process_exit_status
    (parse_args : list str -> parse_outcome)
    (urlparse : str -> result Urllib.ParseResult) (W : world)
    (argv : list str) (fs : Dict.t str) :
  let p := process parse_args urlparse W argv fs in
  (fst p <> 0%Z <->
   (exists code, parse_args argv = Exits code /\ code <> 0%Z)
   \/ (exists args, parse_args argv = Parsed args
                    /\ validate_url urlparse (args_url args) = Return false))
  /\ (fst p <> 0%Z -> sent (snd p) = [])
  /\ (forall code, parse_args argv = Exits code ->
                   p = (code, initial_state fs))
  /\ (forall args, parse_args argv = Parsed args ->
                   validate_url urlparse (args_url args) = Return false ->
                   fst p = 1%Z)
  /\ (forall args, parse_args argv = Parsed args ->
                   validate_url urlparse (args_url args) = Return true ->
                   fst p = 0%Z).
Proof.
  intros p. subst p.
  destruct (parse_args argv) as [args|code] eqn:E.
  - rewrite (process_parsed parse_args urlparse W argv fs args E).
    destruct (validate_url_cases urlparse (args_url args)) as [H|H].
    + destruct (run_valid urlparse W args fs H) as (s1 & s2 & _ & Er & _).
      rewrite Er. cbn [fst snd].
      split; [split|].
      * intros N. now elim N.
      * intros [(code & Ec & _)|(a & Ea & Ha)]; [discriminate Ec|].
        injection Ea as <-. congruence.
      * split; [intros N; now elim N|].
        split; [intros code Ec; discriminate Ec|].
        split; intros a Ea; injection Ea as <-; congruence.
    + destruct (run_invalid urlparse W args fs H) as (s' & Er & Hs).
      rewrite Er. cbn [fst snd].
      split; [split|].
      * intros _. right. eauto.
      * discriminate.
      * split; [intros _; exact Hs|].
        split; [intros code Ec; discriminate Ec|].
        split; intros a Ea; injection Ea as <-; congruence.
  - rewrite (process_exits parse_args urlparse W argv fs code E).
    cbn [fst snd sent initial_state].
    split; [split|].
    + intros N. left. eauto.
    + intros [(c & Ec & Hc)|(a & Ea & _)]; [|discriminate Ea].
      injection Ec as <-. exact Hc.
    + split; [reflexivity|].
      split; [intros c Ec; injection Ec as <-; reflexivity|].
      split; intros a Ea; discriminate Ea.
Qed.

(** Three runs: a base URL without a scheme, a scan that finds nothing on a
    disk that cannot be written, and one that finds a file on a disk that
    fills up. *)
Example exit_status_stubbed :
  fst (run Stub.urlparse Stub.good_disk
         (Stub.args "test.local" [".env"] (Some "out.txt")) []) = 1%Z
  /\ fst (run Stub.urlparse Stub.read_only_disk
            (Stub.args "http://test.local" ["missing.txt"] (Some "out.txt")) [])
     = 0%Z
  /\ fst (run Stub.urlparse Stub.full_disk
            (Stub.args "http://test.local" [".env"] (Some "out.txt")) [])
     = 0%Z.
Proof. repeat split; reflexivity. Qed.



(** The two files of the specification's test, in full. *)
Example report_files_stubbed :
  Dict.get
    (disk (snd (run Stub.urlparse Stub.good_disk
                  (Stub.args "http://test.local" ["missing.txt"]
                     (Some "out.txt")) [])))
    "out.txt"
  = Some ("No sensitive files found." ++ nl)
  /\ Dict.get
       (disk (snd (run Stub.urlparse Stub.good_disk
                     (Stub.args "http://test.local" [".env"; "missing.txt"]
                        (Some "out.txt")) [])))
       "out.txt"
     = Some ("Potentially sensitive files found:" ++ nl
             ++ "URL: http://test.local/.env" ++ nl
             ++ "Content:" ++ nl
             ++ "SECRET=1" ++ nl ++ nl
             ++ "----------------------------------------" ++ nl).
Proof. split; reflexivity. Qed.

(** * Further properties of the code *)

(** ** The URL joiner and the default list *)

Lemma append_cancel_l (a x y : str) : a ++ x = a ++ y -> x = y.
Proof.
  induction a as [|c a IH]; cbn [append]; intros H; [exact H|].
  injection H as H. exact (IH H).
Qed.

Lemma endswith_snoc_slash (base : str) : endswith (base ++ "/") "/" = true.
Proof. apply endswith_iff. now exists base. Qed.

(** X2: when the base ends in no slash and the file name begins with none,
    the four ways of writing the pair (base with or without one trailing
    slash, file name with or without one leading slash) are joined to the
    same URL, the base, a slash and the file name. *)
Theorem urljoin_boundary_variants (base url : str) :
  endswith base "/" = false ->
  startswith url "/" = false ->
  urljoin base url = base ++ "/" ++ url
  /\ urljoin (base ++ "/") url = base ++ "/" ++ url
  /\ urljoin base ("/" ++ url) = base ++ "/" ++ url
  /\ urljoin (base ++ "/") ("/" ++ url) = base ++ "/" ++ url.
Proof.
  intros Hb Hu.
  assert (Hs : startswith ("/" ++ url) "/" = true)
    by (apply startswith_slash; now exists url).
  assert (Ht : slice_from 1 ("/" ++ url) = url) by apply slice_from_1.
  unfold urljoin.
  rewrite Hb, Hu, Hs, Ht, endswith_snoc_slash, drop_last_snoc. auto.
Qed.

Lemma urljoin_boundary_variants_witness :
  urljoin "http://test.local" ".env" = "http://test.local" ++ "/" ++ ".env"
  /\ urljoin ("http://test.local" ++ "/") ".env"
     = "http://test.local" ++ "/" ++ ".env"
  /\ urljoin "http://test.local" ("/" ++ ".env")
     = "http://test.local" ++ "/" ++ ".env"
  /\ urljoin ("http://test.local" ++ "/") ("/" ++ ".env")
     = "http://test.local" ++ "/" ++ ".env".
Proof.
  apply (urljoin_boundary_variants "http://test.local" ".env"); reflexivity.
Defined.

Lemma urljoin_cancel (base f1 f2 : str) :
  startswith f1 "/" = false ->
  startswith f2 "/" = false ->
  urljoin base f1 = urljoin base f2 ->
  f1 = f2.
Proof.
  unfold urljoin. intros -> -> H.
  apply append_cancel_l in H. now injection H.
Qed.

(** X3: on one base, two different file names that begin with no slash
    are joined to different URLs. *)
Theorem urljoin_distinct_names (base f1 f2 : str) :
  startswith f1 "/" = false ->
  startswith f2 "/" = false ->
  f1 <> f2 ->
  urljoin base f1 <> urljoin base f2.
Proof.
  intros H1 H2 N E. apply N. exact (urljoin_cancel base f1 f2 H1 H2 E).
Qed.

Lemma urljoin_distinct_names_witness :
  urljoin "http://test.local/" ".env"
  <> urljoin "http://test.local/" "config.php".
Proof.
  apply (urljoin_distinct_names "http://test.local/" ".env" "config.php");
    [reflexivity | reflexivity | discriminate].
Defined.

Lemma default_urls_nodup (base : str) :
  NoDup (map (urljoin base) COMMON_FILES).
Proof.
  apply NoDup_map_NoDup_ForallPairs.
  - intros f1 f2 H1 H2 E.
    revert E. apply urljoin_cancel.
    + cbn [COMMON_FILES In] in H1.
      repeat (destruct H1 as [<-|H1]; [reflexivity|]). destruct H1.
    + cbn [COMMON_FILES In] in H2.
      repeat (destruct H2 as [<-|H2]; [reflexivity|]). destruct H2.
  - unfold COMMON_FILES.
    repeat (constructor;
            [cbn [In]; intros H;
             repeat (destruct H as [H|H]; [discriminate H|]); destruct H|]).
    constructor.
Qed.

(** X4: for every base URL, the eleven default file names are joined to
    eleven URLs that differ from one another, so that a scan of the default
    list probes no URL twice. *)
Theorem default_urls_distinct (base : str) :
  NoDup (map (urljoin base) COMMON_FILES)
  /\ List.length (map (urljoin base) COMMON_FILES) = 11%nat.
Proof. split; [apply default_urls_nodup | reflexivity]. Qed.

(** ** The URL validator on the standard parser *)

Lemma remove_char_absent (c : ascii) (s : str) :
  contains c s = false -> remove_char c s = s.
Proof.
  induction s as [|a s IH]; cbn [contains remove_char]; [reflexivity|].
  intros H. apply orb_false_iff in H. destruct H as [Ha Hs].
  rewrite Ha, IH; [reflexivity | exact Hs].
Qed.

Lemma find_from_absent (c : ascii) (s : str) :
  contains c s = false -> forall k, find_from c k s = None.
Proof.
  induction s as [|a s IH]; cbn [contains find_from]; [reflexivity|].
  intros H k. apply orb_false_iff in H. destruct H as [Ha Hs].
  destruct k; [rewrite Ha|]; now rewrite IH.
Qed.

Lemma contains_app (c : ascii) (a b : str) :
  contains c (a ++ b) = contains c a || contains c b.
Proof.
  induction a as [|x a IH]; cbn [append contains]; [reflexivity|].
  now rewrite IH, orb_assoc.
Qed.

Lemma contains_lstrip_absent (c : ascii) (chars s : str) :
  contains c s = false -> contains c (lstrip chars s) = false.
Proof.
  induction s as [|a s IH]; cbn [lstrip]; [reflexivity|].
  intros H. destruct (contains a chars); [|exact H].
  apply IH. cbn [contains] in H. now apply orb_false_iff in H.
Qed.

Lemma contains_remove_char_absent (c b : ascii) (s : str) :
  contains c s = false -> contains c (remove_char b s) = false.
Proof.
  induction s as [|a s IH]; cbn [contains remove_char]; [reflexivity|].
  intros H. apply orb_false_iff in H. destruct H as [Ha Hs].
  destruct (Ascii.eqb a b); [now apply IH|].
  cbn [contains]. now rewrite Ha, IH.
Qed.

Lemma substring_past (s : str) (m : nat) : substring (String.length s) m s = "".
Proof. induction s as [|a s IH]; cbn; [now destruct m | exact IH]. Qed.

Lemma contains_true_eqb (c : ascii) (s : str) :
  contains c s = true -> exists a, In a (list_ascii_of_string s) /\ a = c.
Proof.
  induction s as [|a s IH]; cbn [contains list_ascii_of_string In]; [discriminate|].
  intros H. apply orb_true_iff in H. destruct H as [H|H].
  - apply Ascii.eqb_eq in H. eauto.
  - destruct (IH H) as (x & Hx & E). eauto.
Qed.

(** A character of [chars] is none of those outside it. *)
Lemma all_in_excludes (chars s : str) (c : ascii) :
  Urllib.all_in chars s = true -> contains c chars = false ->
  contains c s = false.
Proof.
  intros Hs Hc. induction s as [|a s IH]; [reflexivity|].
  cbn [Urllib.all_in] in Hs. apply andb_true_iff in Hs. destruct Hs as [Ha Hs].
  cbn [contains]. rewrite (IH Hs), orb_false_r.
  destruct (Ascii.eqb_spec a c) as [->|]; [congruence | reflexivity].
Qed.

Lemma find_at_end_of_prefix (c : ascii) (a r : str) :
  contains c a = false -> find c (a ++ String c r) = Some (String.length a).
Proof.
  unfold find. induction a as [|x a IH]; cbn [append contains find_from String.length].
  - now rewrite Ascii.eqb_refl.
  - intros H. apply orb_false_iff in H. destruct H as [Hx Ha].
    now rewrite Hx, (IH Ha).
Qed.

Lemma slice_from_app (a b : str) : slice_from (String.length a) (a ++ b) = b.
Proof.
  unfold slice_from. rewrite length_append.
  replace (String.length a + String.length b - String.length a)%nat
    with (String.length b) by lia.
  apply substring_app_r.
Qed.


Section Authority.

Variable nf : str -> str.
Variable cb : str -> result unit.
Variables sch h : str.
Hypothesis Hfirst :
  match sch with
  | String c _ => isascii_alpha c
  | EmptyString => false
  end = true.
Hypothesis Hsch : Urllib.all_in Urllib.scheme_chars sch = true.
Hypothesis Hne : h <> "".
Hypothesis Hascii : isascii h = true.
Hypothesis Hdelim :
  Forall (fun c => contains c h = false)
    ["/"%char; "?"%char; "#"%char; "["%char; "]"%char;
     ascii_of_nat 9; ascii_of_nat 13; ascii_of_nat 10].

(** Such a string splits into the scheme in lower case, the rest as network
    location, and nothing else. *)
Lemma urlsplit_authority :
  Urllib.urlsplit nf cb (sch ++ "://" ++ h)
  = Return (lower sch, h, "", "", "").
Proof.
  repeat match goal with H : Forall _ (_ :: _) |- _ => inversion_clear H end.
  destruct sch as [|c0 sch'] eqn:Esch; [discriminate|]. rewrite <- Esch in *.
  assert (Hout : forall c, contains c Urllib.scheme_chars = false ->
                           contains c "://" = false ->
                           contains c h = false ->
                           contains c (sch ++ "://" ++ h) = false).
  { intros c Hc Hm Hh.
    now rewrite !contains_app, (all_in_excludes _ _ _ Hsch Hc), Hm, Hh. }
  assert (Hc0 : contains c0 Urllib._WHATWG_C0_CONTROL_OR_SPACE = false).
  { rewrite Esch in Hsch. cbn [Urllib.all_in] in Hsch.
    apply andb_true_iff in Hsch. destruct Hsch as [Hin _].
    destruct (contains c0 Urllib._WHATWG_C0_CONTROL_OR_SPACE) eqn:E; [|reflexivity].
    apply contains_true_eqb in E. destruct E as (a & Ha & ->).
    vm_compute in Ha.
    repeat (destruct Ha as [<-|Ha]; [discriminate Hin|]). destruct Ha. }
  assert (Hclean :
    fold_left (fun (u : str) (b : ascii) => remove_char b u)
      Urllib._UNSAFE_URL_BYTES_TO_REMOVE
      (lstrip Urllib._WHATWG_C0_CONTROL_OR_SPACE (sch ++ "://" ++ h))
    = sch ++ "://" ++ h).
  { assert (L : lstrip Urllib._WHATWG_C0_CONTROL_OR_SPACE (sch ++ "://" ++ h)
                = sch ++ "://" ++ h).
    { rewrite Esch. cbn [append lstrip]. now rewrite Hc0. }
    rewrite L. cbn [fold_left Urllib._UNSAFE_URL_BYTES_TO_REMOVE].
    rewrite (remove_char_absent (ascii_of_nat 9))
      by (apply Hout; solve [reflexivity | assumption]).
    rewrite (remove_char_absent (ascii_of_nat 13))
      by (apply Hout; solve [reflexivity | assumption]).
    rewrite (remove_char_absent (ascii_of_nat 10))
      by (apply Hout; solve [reflexivity | assumption]).
    reflexivity. }
  unfold Urllib.urlsplit. rewrite Hclean.
  assert (Hfind : find ":" (sch ++ "://" ++ h) = Some (S (String.length sch'))).
  { change ("://" ++ h) with (String ":" ("//" ++ h)).
    rewrite find_at_end_of_prefix.
    - now rewrite Esch.
    - apply (all_in_excludes _ _ _ Hsch). reflexivity. }
  rewrite Hfind.
  assert (Hhead : sch ++ "://" ++ h = String c0 (sch' ++ "://" ++ h))
    by now rewrite Esch.
  rewrite Hhead at 1. cbv beta iota.
  assert (Hto : slice_to (S (String.length sch')) (sch ++ "://" ++ h) = sch).
  { replace (S (String.length sch')) with (String.length sch)
      by now rewrite Esch.
    apply slice_to_app. }
  assert (Hfrom : slice_from (S (S (String.length sch'))) (sch ++ "://" ++ h)
                  = "//" ++ h).
  { replace (S (S (String.length sch'))) with (String.length (sch ++ ":"))
      by (rewrite length_append, Esch; cbn [String.length]; lia).
    change ("://" ++ h) with (":" ++ ("//" ++ h)).
    rewrite <- append_assoc. apply slice_from_app. }
  rewrite Hto, Hfrom, Hsch.
  rewrite Hfirst. cbn [andb]. cbv beta iota.
  assert (H2s : slice_to 2 ("//" ++ h) = "//").
  { unfold slice_to. cbn [append substring]. now rewrite substring_0_0. }
  rewrite H2s. change ("//" =? "//") with true. cbv beta iota.
  assert (Hnet : Urllib._splitnetloc ("//" ++ h) 2 = (h, "")).
  { unfold Urllib._splitnetloc. cbn [fold_left].
    change (find_from ?c 2 ("//" ++ h))
      with (option_map S (option_map S (find_from c 0 h))).
    rewrite !find_from_absent by assumption. cbn [option_map].
    unfold Urllib.slice, slice_from. rewrite Nat.sub_diag.
    cbn [append String.length Nat.sub substring].
    now rewrite Nat.sub_0_r, substring_all, substring_past. }
  rewrite Hnet. cbv beta iota. rewrite H2, H3. cbn [andb orb negb].
  change (contains "#" "") with false. change (contains "?" "") with false.
  cbv beta iota.
  unfold Urllib._checknetloc. rewrite Hascii, orb_true_r. reflexivity.
Qed.

Lemma validate_url_authority :
  validate_url (Urllib.urlparse nf cb) (sch ++ "://" ++ h) = Return true.
Proof.
  unfold validate_url, Urllib.urlparse. rewrite urlsplit_authority.
  change (contains ";" "") with false. rewrite andb_false_r.
  cbn [forallb Urllib.scheme Urllib.netloc truthy andb].
  destruct sch; [discriminate Hfirst|].
  destruct h; [contradiction | reflexivity].
Qed.

End Authority.

(** X5: with the standard parser, [validate_url] rejects every string that
    holds no colon: such a string has no scheme. *)
Theorem validate_url_needs_colon
    (normalize_NFKC : str -> str)
    (_check_bracketed_netloc : str -> result unit) (url : str) :
  contains ":" url = false ->
  validate_url (Urllib.urlparse normalize_NFKC _check_bracketed_netloc) url
  = Return false.
Proof.
  intros H.
  assert (Hfind :
    find ":" (fold_left (fun (u : str) (b : ascii) => remove_char b u)
      Urllib._UNSAFE_URL_BYTES_TO_REMOVE
      (lstrip Urllib._WHATWG_C0_CONTROL_OR_SPACE url)) = None).
  { apply find_from_absent. cbn [fold_left Urllib._UNSAFE_URL_BYTES_TO_REMOVE].
    now repeat apply contains_remove_char_absent; apply contains_lstrip_absent. }
  unfold validate_url, Urllib.urlparse, Urllib.urlsplit.
  rewrite Hfind. cbv beta iota zeta.
  repeat match goal with
         | |- context [match ?x with _ => _ end] =>
             lazymatch x with
             | context [match _ with _ => _ end] => fail
             | _ => destruct x
             end
         end; reflexivity.
Qed.

Lemma validate_url_needs_colon_witness :
  validate_url Stub.urlparse "//test.local/path" = Return false.
Proof.
  apply (validate_url_needs_colon (fun s => s) (fun _ => Return tt)
           "//test.local/path").
  reflexivity.
Defined.

(** X6: with the standard parser, [validate_url] accepts every string made
    of a scheme, [://] and a non-empty rest, when the scheme begins with an
    ASCII letter and holds only letters, digits, [+], [-] and [.], and the
    rest is ASCII and holds none of [/ ? # [ ]], tab, carriage return and
    line feed.  Neither the scheme nor the host is looked at any further: a
    scheme other than http and a rest that names no host, as in [ftp://:21],
    pass. *)
Theorem validate_url_accepts_scheme_authority
    (normalize_NFKC : str -> str)
    (_check_bracketed_netloc : str -> result unit) (sch h : str) :
  match sch with
  | String c _ => isascii_alpha c
  | EmptyString => false
  end = true ->
  Urllib.all_in Urllib.scheme_chars sch = true ->
  h <> "" ->
  isascii h = true ->
  Forall (fun c => contains c h = false)
    ["/"%char; "?"%char; "#"%char; "["%char; "]"%char;
     ascii_of_nat 9; ascii_of_nat 13; ascii_of_nat 10] ->
  validate_url (Urllib.urlparse normalize_NFKC _check_bracketed_netloc)
    (sch ++ "://" ++ h)
  = Return true.
Proof. intros. now apply validate_url_authority. Qed.

Lemma validate_url_accepts_scheme_authority_witness :
  validate_url Stub.urlparse ("ftp" ++ "://" ++ ":21") = Return true.
Proof.
  apply (validate_url_accepts_scheme_authority
           (fun s => s) (fun _ => Return tt) "ftp" ":21").
  - reflexivity.
  - reflexivity.
  - discriminate.
  - reflexivity.
  - repeat constructor.
Defined.

(** ** What a probe does besides answering *)

(** X7: a probe never raises; it returns the joined URL, with a body
    exactly when it reports the file as found; it sends exactly one request,
    for the joined URL with the given timeout, and changes neither the disk
    nor the level of the logger. *)
Theorem check_file_exists_effects
    (W : world) (url filename : str) (timeout : Z) (s : state) :
  exists (found : bool) (content : option str) (s' : state),
    check_file_exists W url filename timeout s
    = (Return (found, urljoin url filename, content), s')
    /\ (found = true <-> content <> None)
    /\ sent s' = (sent s ++ [(urljoin url filename, timeout)])%list
    /\ disk s' = disk s
    /\ log_threshold s' = log_threshold s.
Proof.
  destruct (check_file_exists_run W url filename timeout s)
    as (s' & E & Hs & Hd & Ht).
  destruct (found_body (http_get W (sent s) (urljoin url filename) timeout))
    as [body|].
  - exists true, (Some body), s'.
    split; [exact E|]. split; [|auto].
    split; [discriminate | reflexivity].
  - exists false, None, s'.
    split; [exact E|]. split; [|auto].
    split; [discriminate | congruence].
Qed.






(** The quiet log of a found file on a network whose libraries log: the
    warning of the library passes, its debug records do not. *)
Example probe_log_quiet_stubbed :
  log_records
    (snd (check_file_exists Stub.chatty "http://test.local" ".env" 5
            (initial_state [])))
  = [(WARNING, "Failed to parse headers");
     (INFO, "Found: http://test.local/.env (Status Code: 200)")].
Proof. reflexivity. Qed.



(** ** The scan loop *)

Lemma probes_stateless (W : world) (url : str) (timeout : Z)
    (files : list str) :
  (forall h1 h2 u t, http_get W h1 u t = http_get W h2 u t) ->
  forall before1 before2,
    probes W url timeout files before1 = probes W url timeout files before2.
Proof.
  intros H. induction files as [|f files IH]; intros b1 b2; cbn [probes];
    [reflexivity|].
  f_equal; [f_equal; apply H | apply IH].
Qed.

(** X10: against a server whose answer to a request does not depend on the
    requests sent before, the loop returns the same dictionary whatever was
    sent, logged or written earlier: scanning again gives the same report. *)
Theorem scan_repeatable
    (W : world) (url : str) (timeout : Z) (files : list str)
    (d : Dict.t (option str)) (s1 s2 : state) :
  (forall h1 h2 u t, http_get W h1 u t = http_get W h2 u t) ->
  fst (scan W url files timeout d s1) = fst (scan W url files timeout d s2).
Proof.
  intros H.
  destruct (scan_run W url timeout files d s1) as (s1' & E1 & _).
  destruct (scan_run W url timeout files d s2) as (s2' & E2 & _).
  rewrite E1, E2. cbn [fst].
  now rewrite (probes_stateless W url timeout files H (sent s1) (sent s2)).
Qed.

Lemma scan_repeatable_witness :
  fst (scan Stub.good_disk "http://test.local" [".env"; "missing.txt"] 5
         (Dict.empty _) (initial_state []))
  = fst (scan Stub.good_disk "http://test.local" [".env"; "missing.txt"] 5
           (Dict.empty _)
           (snd (scan Stub.good_disk "http://test.local"
                   [".env"; "missing.txt"] 5 (Dict.empty _)
                   (initial_state [])))).
Proof.
  apply (scan_repeatable Stub.good_disk "http://test.local" 5
           [".env"; "missing.txt"]).
  intros h1 h2 u t. reflexivity.
Defined.

Lemma length_first_occurrences (l : list str) :
  (List.length (first_occurrences l) <= List.length l)%nat.
Proof.
  induction l as [|k l IH]; cbn [first_occurrences List.length]; [lia|].
  pose proof (remove_length_le string_dec (first_occurrences l) k) as H.
  apply le_n_S. exact (Nat.le_trans _ _ _ H IH).
Qed.

Lemma length_found_results (l : list (str * get_outcome)) :
  (List.length (found_results l) <= List.length l)%nat.
Proof.
  unfold found_results.
  induction l as [|[u o] l IH]; cbn [flat_map List.length fst snd]; [lia|].
  rewrite length_app. destruct (found_body o); cbn [List.length]; lia.
Qed.

Lemma length_probes (W : world) (url : str) (timeout : Z) (files : list str) :
  forall before,
    List.length (probes W url timeout files before) = List.length files.
Proof.
  induction files as [|f files IH]; intros before; cbn [probes List.length];
    [reflexivity | now rewrite IH].
Qed.

(** X11: the report of a scan has at most as many entries as there are
    file names in the list. *)
Theorem report_size_bound
    (W : world) (url : str) (timeout : Z) (files : list str) (s : state) :
  exists found_files s',
    scan W url files timeout (Dict.empty _) s = (Return found_files, s')
    /\ (List.length (Dict.items found_files) <= List.length files)%nat.
Proof.
  destruct (scan_run W url timeout files (Dict.empty _) s) as (s' & E & _).
  eexists. exists s'. split; [exact E|].
  set (found := found_results (probes W url timeout files (sent s))).
  assert (K : Dict.keys (insert_all found (Dict.empty _))
              = first_occurrences (map fst found))
    by now rewrite keys_insert_all by constructor.
  pose proof (f_equal (@List.length str) K) as L.
  unfold Dict.keys in L. rewrite length_map in L.
  unfold Dict.items. rewrite L.
  pose proof (length_first_occurrences (map fst found)) as H1.
  rewrite length_map in H1.
  pose proof (length_found_results (probes W url timeout files (sent s)))
    as H2.
  rewrite length_probes in H2. fold found in H2. lia.
Qed.

Lemma keys_insert_all_keep (found : list (str * str)) :
  forall (d : Dict.t (option str)) (u : str),
    In u (Dict.keys d) -> In u (Dict.keys (insert_all found d)).
Proof.
  induction found as [|[k b] found IH]; intros d u H; cbn; [exact H|].
  apply IH.
  destruct (in_dec string_dec k (Dict.keys d)) as [I|N].
  - now rewrite keys_set_present.
  - rewrite keys_set_absent by assumption. apply in_or_app. now left.
Qed.

(** X12: the loop writes nothing to the disk and leaves the level of the
    logger alone; it removes no entry of the dictionary it starts from, and
    an entry whose URL no probe found keeps its value. *)
Theorem scan_frame
    (W : world) (url : str) (timeout : Z) (files : list str)
    (d : Dict.t (option str)) (s : state) :
  exists found_files s',
    scan W url files timeout d s = (Return found_files, s')
    /\ disk s' = disk s
    /\ log_threshold s' = log_threshold s
    /\ (forall u, In u (Dict.keys d) -> In u (Dict.keys found_files))
    /\ (forall u,
          last_body u (found_results (probes W url timeout files (sent s)))
          = None ->
          Dict.get found_files u = Dict.get d u).
Proof.
  destruct (scan_run W url timeout files d s) as (s' & E & _ & Hd & Ht).
  eexists. exists s'. split; [exact E|]. repeat split; try assumption.
  - intros u. apply keys_insert_all_keep.
  - intros u H. now rewrite get_insert_all, H.
Qed.

(** X13: scanning a list made of two parts is scanning the first part and
    then the second one, from the dictionary and the state that the first
    scan leaves. *)
Theorem scan_concatenation
    (W : world) (url : str) (timeout : Z) (files1 files2 : list str)
    (d : Dict.t (option str)) (s : state) :
  exists d1 s1,
    scan W url files1 timeout d s = (Return d1, s1)
    /\ scan W url (files1 ++ files2)%list timeout d s
       = scan W url files2 timeout d1 s1.
Proof.
  destruct (scan_run W url timeout files1 d s) as (s1 & E1 & _).
  eexists. exists s1. split; [exact E1|]. now rewrite scan_app, E1.
Qed.

(** ** What a run does to the disk *)

Section Confined.

Variable W : world.
Variable path : str.

Lemma confined_ret {A} (a : A) : confined path (ret a).
Proof. intros s p _. reflexivity. Qed.

Lemma confined_bind {A B} (c : M A) (k : A -> M B) :
  confined path c -> (forall a, confined path (k a)) ->
  confined path (bind c k).
Proof.
  intros Hc Hk s p Hp. specialize (Hc s p Hp). unfold bind.
  destruct (c s) as [[a|e] s1]; cbn [snd] in *; [|exact Hc].
  now rewrite (Hk a s1 p Hp).
Qed.

Lemma confined_for_each {A B} (xs : list A) (body : A -> B -> M B) :
  (forall x acc, confined path (body x acc)) ->
  forall acc, confined path (for_each xs acc body).
Proof.
  intros Hb. induction xs as [|x xs IH]; intros acc; cbn [for_each].
  - apply confined_ret.
  - apply confined_bind; [apply Hb | exact IH].
Qed.

Lemma confined_try_finally {A} (body : M A) (fin : M unit) :
  confined path body -> confined path fin ->
  confined path (try_finally body fin).
Proof.
  intros Hb Hf s p Hp. specialize (Hb s p Hp). unfold try_finally.
  destruct (body s) as [r s1]. specialize (Hf s1 p Hp). cbn [snd] in *.
  destruct (fin s1) as [[[]|e] s2]; cbn [snd] in *; congruence.
Qed.

Lemma confined_try_except {A} (body : M A) (handler : raised -> option (M A)) :
  confined path body ->
  (forall e h, handler e = Some h -> confined path h) ->
  confined path (try_except body handler).
Proof.
  intros Hb Hh s p Hp. specialize (Hb s p Hp). unfold try_except.
  destruct (body s) as [[a|e] s1]; cbn [snd] in *; [exact Hb|].
  destruct (handler e) as [h|] eqn:E; [|exact Hb].
  now rewrite (Hh e h E s1 p Hp).
Qed.

Lemma confined_log (l : log_level) (msg : str) :
  confined path (logging_log l msg).
Proof.
  intros s p _. destruct (logging_log_run l msg s) as (s' & E & _ & H & _).
  now rewrite E, <- H.
Qed.

Lemma confined_open : confined path (open_w W path).
Proof.
  intros s p Hp. unfold open_w. destruct (fs_open W path); [reflexivity|].
  cbn [snd disk]. rewrite get_set.
  destruct (String.eqb_spec path p); [congruence | reflexivity].
Qed.

Lemma confined_write (data : str) : confined path (file_write W path data).
Proof.
  intros s p Hp. unfold file_write.
  destruct (fs_write W path _ data); [reflexivity|].
  cbn [snd disk]. rewrite get_set.
  destruct (String.eqb_spec path p); [congruence | reflexivity].
Qed.

Lemma confined_close : confined path (file_close W path).
Proof.
  intros s p _. unfold file_close. destruct (fs_close W path _); reflexivity.
Qed.

Lemma confined_write_report (found_files : Dict.t (option str)) :
  confined path (write_report W path found_files).
Proof.
  unfold write_report. apply confined_try_except.
  - apply confined_bind; [|intros _; apply confined_log].
    unfold with_open_w.
    apply confined_bind; [apply confined_open | intros _].
    apply confined_try_finally; [|apply confined_close].
    destruct (Dict.truthy found_files); [|apply confined_write].
    apply confined_bind; [apply confined_write | intros _].
    apply confined_for_each. intros [u c] [].
    repeat (apply confined_bind; [apply confined_write | intros _]).
    apply confined_write.
  - intros [err|code] h E; [|discriminate E].
    injection E as <-. apply confined_log.
Qed.

End Confined.

Section DiskDetermined.

Variable W : world.

Lemma determined_ret {A} (a : A) : disk_determined (ret a).
Proof. intros s1 s2 H. split; [reflexivity | exact H]. Qed.

Lemma determined_bind {A B} (c : M A) (k : A -> M B) :
  disk_determined c -> (forall a, disk_determined (k a)) ->
  disk_determined (bind c k).
Proof.
  intros Hc Hk s1 s2 H. destruct (Hc s1 s2 H) as [Hr Hd]. unfold bind.
  destruct (c s1) as [r1 t1]; destruct (c s2) as [r2 t2].
  cbn [fst snd] in Hr, Hd. subst r2.
  destruct r1 as [a|e]; [apply Hk; exact Hd | split; [reflexivity | exact Hd]].
Qed.

Lemma determined_for_each {A B} (xs : list A) (body : A -> B -> M B) :
  (forall x acc, disk_determined (body x acc)) ->
  forall acc, disk_determined (for_each xs acc body).
Proof.
  intros Hb. induction xs as [|x xs IH]; intros acc; cbn [for_each].
  - apply determined_ret.
  - apply determined_bind; [apply Hb | exact IH].
Qed.

Lemma determined_try_finally {A} (body : M A) (fin : M unit) :
  disk_determined body -> disk_determined fin ->
  disk_determined (try_finally body fin).
Proof.
  intros Hb Hf s1 s2 H. destruct (Hb s1 s2 H) as [Hr Hd]. unfold try_finally.
  destruct (body s1) as [r1 t1]; destruct (body s2) as [r2 t2].
  cbn [fst snd] in Hr, Hd. subst r2.
  destruct (Hf t1 t2 Hd) as [Fr Fd].
  destruct (fin t1) as [f1 u1]; destruct (fin t2) as [f2 u2].
  cbn [fst snd] in Fr, Fd. subst f2.
  destruct f1 as [[]|e]; split; assumption || reflexivity.
Qed.

Lemma determined_try_except {A} (body : M A)
    (handler : raised -> option (M A)) :
  disk_determined body ->
  (forall e h, handler e = Some h -> disk_determined h) ->
  disk_determined (try_except body handler).
Proof.
  intros Hb Hh s1 s2 H. destruct (Hb s1 s2 H) as [Hr Hd]. unfold try_except.
  destruct (body s1) as [r1 t1]; destruct (body s2) as [r2 t2].
  cbn [fst snd] in Hr, Hd. subst r2.
  destruct r1 as [a|e]; [split; [reflexivity | exact Hd]|].
  destruct (handler e) as [h|] eqn:E; [|split; [reflexivity | exact Hd]].
  exact (Hh e h E t1 t2 Hd).
Qed.

Lemma determined_log (l : log_level) (msg : str) :
  disk_determined (logging_log l msg).
Proof.
  intros s1 s2 H.
  destruct (logging_log_run l msg s1) as (t1 & E1 & _ & H1 & _).
  destruct (logging_log_run l msg s2) as (t2 & E2 & _ & H2 & _).
  rewrite E1, E2. cbn [fst snd]. split; congruence.
Qed.

Lemma determined_open (path : str) : disk_determined (open_w W path).
Proof.
  intros s1 s2 H. unfold open_w.
  destruct (fs_open W path); cbn [fst snd disk]; split; congruence.
Qed.

Lemma determined_write (path data : str) :
  disk_determined (file_write W path data).
Proof.
  intros s1 s2 H. unfold file_write. rewrite H.
  destruct (fs_write W path _ data); cbn [fst snd disk]; split; congruence.
Qed.

Lemma determined_close (path : str) : disk_determined (file_close W path).
Proof.
  intros s1 s2 H. unfold file_close. rewrite H.
  destruct (fs_close W path _); cbn [fst snd]; split; congruence.
Qed.

Lemma determined_write_report (path : str)
    (found_files : Dict.t (option str)) :
  disk_determined (write_report W path found_files).
Proof.
  unfold write_report. apply determined_try_except.
  - apply determined_bind; [|intros _; apply determined_log].
    unfold with_open_w.
    apply determined_bind; [apply determined_open | intros _].
    apply determined_try_finally; [|apply determined_close].
    destruct (Dict.truthy found_files); [|apply determined_write].
    apply determined_bind; [apply determined_write | intros _].
    apply determined_for_each. intros [u c] [].
    repeat (apply determined_bind; [apply determined_write | intros _]).
    apply determined_write.
  - intros [err|code] h E; [|discriminate E].
    injection E as <-. apply determined_log.
Qed.

End DiskDetermined.

(** ** The whole run, further *)

Section RunFacts.

Variable urlparse : str -> result Urllib.ParseResult.
Variable W : world.

(** The state in which the summary and the report are produced, in a run
    on a valid URL. *)
Lemma run_valid_disk (args : Namespace) (fs : Dict.t str) :
  validate_url urlparse (args_url args) = Return true ->
  exists s1,
    main_parsed urlparse W args (initial_state fs)
    = after_scan W args
        (insert_all
           (found_results
              (probes W (args_url args) (args_timeout args) (args_files args)
                 []))
           (Dict.empty _)) s1
    /\ disk s1 = fs
    /\ sent s1 =
       map (fun filename =>
              (urljoin (args_url args) filename, args_timeout args))
         (args_files args).
Proof.
  intros H.
  destruct (main_valid urlparse W args (initial_state fs) H)
    as (s1 & E1 & Hs1 & Hd1).
  exists s1. cbn [sent disk initial_state app] in *. auto.
Qed.

Lemma snd_run (args : Namespace) (fs : Dict.t str) :
  snd (run urlparse W args fs)
  = snd (main_parsed urlparse W args (initial_state fs)).
Proof.
  unfold run.
  destruct (main_parsed urlparse W args (initial_state fs)) as [[[]|[e|code]] s];
    reflexivity.
Qed.

End RunFacts.

(** X14: on a base URL that [validate_url] rejects, the run ends with status
    1 having logged one record, the error that asks for a full URL, sent no
    request and left the disk as it was. *)
Theorem run_invalid_url_effects
    (urlparse : str -> result Urllib.ParseResult) (W : world)
    (args : Namespace) (fs : Dict.t str) :
  validate_url urlparse (args_url args) = Return false ->
  run urlparse W args fs
  = (1%Z,
     {| log_threshold := if args_verbose args then DEBUG else INFO;
        log_records :=
          [(ERROR, "Invalid URL provided.  Please provide a full URL "
                   ++ "(e.g., http://example.com)")];
        sent := [];
        disk := fs |}).
Proof.
  intros H.
  unfold run, main_parsed, bind, lift, ret, set_level, sys_exit, raise,
    logging_error, logging_log.
  rewrite H. destruct (args_verbose args); reflexivity.
Qed.

Lemma run_invalid_url_effects_witness :
  run Stub.urlparse Stub.good_disk
    (Stub.args "test.local" [".env"] (Some "out.txt")) [("old.txt", "kept")]
  = (1%Z,
     {| log_threshold :=
          if args_verbose (Stub.args "test.local" [".env"] (Some "out.txt"))
          then DEBUG else INFO;
        log_records :=
          [(ERROR, "Invalid URL provided.  Please provide a full URL "
                   ++ "(e.g., http://example.com)")];
        sent := [];
        disk := [("old.txt", "kept")] |}).
Proof.
  apply (run_invalid_url_effects Stub.urlparse Stub.good_disk
           (Stub.args "test.local" [".env"] (Some "out.txt"))
           [("old.txt", "kept")]).
  reflexivity.
Defined.

(** X15: a run without an output path, or with the empty string as output
    path, leaves the disk as it was, whatever the scan finds. *)
Theorem run_without_output
    (urlparse : str -> result Urllib.ParseResult) (W : world)
    (args : Namespace) (fs : Dict.t str) :
  args_output args = None \/ args_output args = Some "" ->
  disk (snd (run urlparse W args fs)) = fs.
Proof.
  intros Hout. rewrite snd_run.
  destruct (validate_url_cases urlparse (args_url args)) as [H|H].
  - destruct (run_valid_disk urlparse W args fs H) as (s1 & E & Hd & _).
    rewrite E. unfold after_scan.
    match goal with
    | |- context [log_summary ?f] =>
        destruct (log_summary_run f s1) as (s2 & E2 & _ & Hd2)
    end.
    rewrite (bind_return _ _ _ _ _ E2).
    destruct Hout as [-> | ->]; cbn [truthy]; unfold ret; cbn [snd];
      congruence.
  - destruct (main_invalid urlparse W args (initial_state fs) H)
      as (s' & E & _ & Hd).
    now rewrite E.
Qed.

Lemma run_without_output_witness :
  disk (snd (run Stub.urlparse Stub.good_disk
               (Stub.args "http://test.local" [".env"] None)
               [("old.txt", "kept")]))
  = [("old.txt", "kept")].
Proof.
  apply (run_without_output Stub.urlparse Stub.good_disk
           (Stub.args "http://test.local" [".env"] None)).
  left. reflexivity.
Defined.

(** X16: a run changes no file other than the one named as output path,
    whatever the file system answers. *)
Theorem run_touches_only_output
    (urlparse : str -> result Urllib.ParseResult) (W : world)
    (args : Namespace) (fs : Dict.t str) (p : str) :
  args_output args <> Some p ->
  Dict.get (disk (snd (run urlparse W args fs))) p = Dict.get fs p.
Proof.
  intros Hp. rewrite snd_run.
  destruct (validate_url_cases urlparse (args_url args)) as [H|H].
  - destruct (run_valid_disk urlparse W args fs H) as (s1 & E & Hd & _).
    rewrite E. unfold after_scan.
    match goal with
    | |- context [log_summary ?f] =>
        destruct (log_summary_run f s1) as (s2 & E2 & _ & Hd2)
    end.
    rewrite (bind_return _ _ _ _ _ E2).
    destruct (args_output args) as [path|];
      [destruct (truthy path)|]; unfold ret; cbn [snd]; try congruence.
    rewrite (confined_write_report W path _ s2 p)
      by (intros ->; now apply Hp).
    now rewrite Hd2, Hd.
  - destruct (main_invalid urlparse W args (initial_state fs) H)
      as (s' & E & _ & Hd).
    rewrite E. cbn [snd]. now rewrite Hd.
Qed.

Lemma run_touches_only_output_witness :
  Dict.get
    (disk (snd (run Stub.urlparse Stub.full_disk
                  (Stub.args "http://test.local" [".env"] (Some "out.txt"))
                  [("old.txt", "kept")])))
    "old.txt"
  = Dict.get [("old.txt", "kept")] "old.txt".
Proof.
  apply (run_touches_only_output Stub.urlparse Stub.full_disk
           (Stub.args "http://test.local" [".env"] (Some "out.txt"))).
  discriminate.
Defined.



Lemma logging_error_records (msg : str) (s : state) :
  logging_error msg s
  = (Return tt,
     {| log_threshold := log_threshold s;
        log_records := (log_records s ++ [(ERROR, msg)])%list;
        sent := sent s;
        disk := disk s |}).
Proof.
  unfold logging_error, logging_log. now destruct (log_threshold s).
Qed.

Lemma logging_info_records (msg : str) (s : state) :
  log_threshold s <> WARNING ->
  log_threshold s <> ERROR ->
  logging_info msg s
  = (Return tt,
     {| log_threshold := log_threshold s;
        log_records := (log_records s ++ [(INFO, msg)])%list;
        sent := sent s;
        disk := disk s |}).
Proof.
  unfold logging_info, logging_log.
  destruct (log_threshold s); congruence || reflexivity.
Qed.

Lemma write_report_open_fails (W : world) (path : str)
    (found_files : Dict.t (option str)) (e : py_error) (s : state) :
  fs_open W path = Some e ->
  write_report W path found_files s
  = logging_error ("Error writing to output file: " ++ str_of_error e) s.
Proof.
  intros H. unfold write_report, try_except, with_open_w, bind, open_w.
  now rewrite H.
Qed.

(** X18: when the base URL is valid and the file at the output path cannot
    be opened, the run still ends with status 0; it leaves the disk as it
    was, and the last record it logs is the error of writing, with the text
    of the exception. *)
Theorem report_unwritable
    (urlparse : str -> result Urllib.ParseResult) (W : world)
    (args : Namespace) (fs : Dict.t str) (path : str) (e : py_error) :
  args_output args = Some path ->
  path <> "" ->
  validate_url urlparse (args_url args) = Return true ->
  fs_open W path = Some e ->
  fst (run urlparse W args fs) = 0%Z
  /\ disk (snd (run urlparse W args fs)) = fs
  /\ exists earlier,
       log_records (snd (run urlparse W args fs))
       = List.app earlier
           [(ERROR, "Error writing to output file: " ++ str_of_error e)].
Proof.
  intros Hout Hpath Hvalid Hopen.
  destruct (run_valid urlparse W args fs Hvalid) as (s1 & s2 & _ & Erun & _).
  rewrite Erun. split; [reflexivity|].
  assert (Es : s2 = snd (run urlparse W args fs)) by now rewrite Erun.
  rewrite snd_run in Es. cbn [snd]. subst s2.
  destruct (run_valid_disk urlparse W args fs Hvalid) as (s0 & E & Hd & _).
  rewrite E. unfold after_scan.
  match goal with
  | |- context [log_summary ?f] =>
      destruct (log_summary_run f s0) as (s3 & E3 & _ & Hd3)
  end.
  rewrite (bind_return _ _ _ _ _ E3), Hout.
  destruct path as [|c path]; [congruence|]. cbn [truthy].
  rewrite (write_report_open_fails W _ _ e s3 Hopen), logging_error_records.
  cbn [snd disk log_records]. split; [congruence|].
  now exists (log_records s3).
Qed.

Lemma report_unwritable_witness :
  fst (run Stub.urlparse Stub.read_only_disk
         (Stub.args "http://test.local" [".env"] (Some "out.txt")) []) = 0%Z
  /\ disk (snd (run Stub.urlparse Stub.read_only_disk
                  (Stub.args "http://test.local" [".env"] (Some "out.txt"))
                  []))
     = []
  /\ exists earlier,
       log_records
         (snd (run Stub.urlparse Stub.read_only_disk
                 (Stub.args "http://test.local" [".env"] (Some "out.txt")) []))
       = List.app earlier
           [(ERROR, "Error writing to output file: "
                    ++ str_of_error (OSError "[Errno 13] Permission denied"))].
Proof.
  apply (report_unwritable Stub.urlparse Stub.read_only_disk
           (Stub.args "http://test.local" [".env"] (Some "out.txt")) []
           "out.txt" (OSError "[Errno 13] Permission denied")).
  - reflexivity.
  - discriminate.
  - reflexivity.
  - reflexivity.
Defined.

Lemma log_each_records (items : list (str * option str)) :
  forall s,
    log_threshold s <> WARNING ->
    log_threshold s <> ERROR ->
    log_records
      (snd (for_each items tt
              (fun '(url, _) _ => logging_info ("- " ++ url)) s))
    = List.app (log_records s)
        (map (fun u => (INFO, "- " ++ u)) (Dict.keys items)).
Proof.
  induction items as [|[u c] items IH]; intros s Hw H;
    cbn [for_each Dict.keys map fst].
  - unfold ret. cbn [snd]. now rewrite app_nil_r.
  - rewrite (bind_return _ _ _ _ _ (logging_info_records ("- " ++ u) s Hw H)).
    fold (Dict.keys items). rewrite IH by assumption.
    cbn [log_records]. now rewrite <- app_assoc.
Qed.

(** X19: with the logger at its default or at debug level (at neither
    WARNING nor ERROR), the summary
    after the loop logs, for a report that is not empty, a heading and then
    one INFO record per URL of the report, in the order of the report; for
    an empty report it logs the one record that nothing was found. *)
Theorem log_summary_lists_report
    (found_files : Dict.t (option str)) (s : state) :
  log_threshold s <> WARNING ->
  log_threshold s <> ERROR ->
  log_records (snd (log_summary found_files s))
  = List.app (log_records s)
      (if Dict.truthy found_files then
         (INFO, "The following potentially sensitive files were found:")
           :: map (fun u => (INFO, "- " ++ u)) (Dict.keys found_files)
       else [(INFO, "No sensitive files were found.")]).
Proof.
  intros Hw H. unfold log_summary. destruct (Dict.truthy found_files).
  - rewrite (bind_return _ _ _ _ _ (logging_info_records _ s Hw H)).
    unfold Dict.items. rewrite log_each_records by assumption.
    cbn [log_records]. now rewrite <- app_assoc.
  - now rewrite logging_info_records.
Qed.

Lemma log_summary_lists_report_witness :
  log_records
    (snd (log_summary
            [("http://test.local/.env", Some "a");
             ("http://test.local/config.php", Some "b")]
            (initial_state [])))
  = List.app (log_records (initial_state []))
      (if Dict.truthy
            [("http://test.local/.env", Some "a");
             ("http://test.local/config.php", Some "b")]
       then
         (INFO, "The following potentially sensitive files were found:")
           :: map (fun u => (INFO, "- " ++ u))
                (Dict.keys
                   [("http://test.local/.env", Some "a");
                    ("http://test.local/config.php", Some "b")])
       else [(INFO, "No sensitive files were found.")]).
Proof.
  apply (log_summary_lists_report
           [("http://test.local/.env", Some "a");
            ("http://test.local/config.php", Some "b")]
           (initial_state [])).
  - discriminate.
  - discriminate.
Defined.

Lemma after_scan_disk (W : world) (args1 args2 : Namespace)
    (found_files : Dict.t (option str)) (s1 s2 : state) :
  args_output args1 = args_output args2 ->
  disk s1 = disk s2 ->
  disk (snd (after_scan W args1 found_files s1))
  = disk (snd (after_scan W args2 found_files s2)).
Proof.
  intros Hout Hd. unfold after_scan.
  destruct (log_summary_run found_files s1) as (t1 & E1 & _ & H1).
  destruct (log_summary_run found_files s2) as (t2 & E2 & _ & H2).
  rewrite (bind_return _ _ _ _ _ E1), (bind_return _ _ _ _ _ E2), Hout.
  assert (Ht : disk t1 = disk t2) by congruence.
  destruct (args_output args2) as [path|]; [destruct (truthy path)|];
    unfold ret; cbn [snd]; try exact Ht.
  apply (determined_write_report W path found_files t1 t2 Ht).
Qed.

(** X20: the flag [-v] changes nothing but the log: with and without it
    the run ends with the same status, has sent the same requests and
    leaves the same disk. *)
Theorem verbose_changes_only_the_log
    (urlparse : str -> result Urllib.ParseResult) (W : world)
    (url : str) (files : list str) (timeout : Z) (output : option str)
    (fs : Dict.t str) :
  let args v :=
    {| args_url := url; args_files := files; args_timeout := timeout;
       args_verbose := v; args_output := output |} in
  fst (run urlparse W (args true) fs) = fst (run urlparse W (args false) fs)
  /\ sent (snd (run urlparse W (args true) fs))
     = sent (snd (run urlparse W (args false) fs))
  /\ disk (snd (run urlparse W (args true) fs))
     = disk (snd (run urlparse W (args false) fs)).
Proof.
  intros args.
  destruct (validate_url_cases urlparse url) as [H|H].
  - destruct (run_valid urlparse W (args true) fs H)
      as (a1 & a2 & _ & Ea & _ & Hsa).
    destruct (run_valid urlparse W (args false) fs H)
      as (b1 & b2 & _ & Eb & _ & Hsb).
    split; [now rewrite Ea, Eb|].
    split; [rewrite Ea, Eb; cbn [snd]; now rewrite Hsa, Hsb|].
    rewrite !snd_run.
    destruct (run_valid_disk urlparse W (args true) fs H)
      as (t1 & E1 & Hd1 & _).
    destruct (run_valid_disk urlparse W (args false) fs H)
      as (t2 & E2 & Hd2 & _).
    rewrite E1, E2. apply after_scan_disk; [reflexivity | congruence].
  - destruct (run_invalid urlparse W (args true) fs H) as (a & Ea & Hsa).
    destruct (run_invalid urlparse W (args false) fs H) as (b & Eb & Hsb).
    split; [now rewrite Ea, Eb|].
    split; [rewrite Ea, Eb; cbn [snd]; congruence|].
    rewrite !snd_run.
    destruct (main_invalid urlparse W (args true) (initial_state fs) H)
      as (t1 & E1 & _ & Hd1).
    destruct (main_invalid urlparse W (args false) (initial_state fs) H)
      as (t2 & E2 & _ & Hd2).
    rewrite E1, E2. cbn [snd]. congruence.
Qed.

(** X21: a run on a valid URL with every option at its default sends
    eleven requests, one per default file name in the order of the list,
    each with a timeout of 5 and no two for the same URL; it ends with
    status 0 and leaves the disk as it was. *)
Theorem default_run
    (urlparse : str -> result Urllib.ParseResult) (W : world)
    (url : str) (fs : Dict.t str) :
  validate_url urlparse url = Return true ->
  fst (run urlparse W (default_args url) fs) = 0%Z
  /\ sent (snd (run urlparse W (default_args url) fs))
     = map (fun filename => (urljoin url filename, 5%Z)) COMMON_FILES
  /\ List.length (sent (snd (run urlparse W (default_args url) fs))) = 11%nat
  /\ NoDup (map fst (sent (snd (run urlparse W (default_args url) fs))))
  /\ disk (snd (run urlparse W (default_args url) fs)) = fs.
Proof.
  intros H.
  destruct (run_valid urlparse W (default_args url) fs H)
    as (s1 & s2 & _ & Erun & Eafter & Hs).
  cbn [default_args args_url args_files args_timeout] in Hs, Eafter.
  rewrite Erun. cbn [fst snd]. split; [reflexivity|].
  split; [exact Hs|]. split; [now rewrite Hs|].
  split.
  - rewrite Hs, map_map. cbn [fst]. apply default_urls_nodup.
  - destruct (run_valid_disk urlparse W (default_args url) fs H)
      as (t1 & E1 & Hd1 & _).
    assert (Es : s2 = snd (main_parsed urlparse W (default_args url)
                             (initial_state fs)))
      by now rewrite <- snd_run, Erun.
    rewrite Es, E1. unfold after_scan.
    match goal with
    | |- context [log_summary ?f] =>
        destruct (log_summary_run f t1) as (t2 & E2 & _ & Hd2)
    end.
    rewrite (bind_return _ _ _ _ _ E2).
    cbn [default_args args_output]. unfold ret. cbn [snd]. congruence.
Qed.

Lemma default_run_witness :
  fst (run Stub.urlparse Stub.good_disk (default_args "http://test.local") [])
  = 0%Z
  /\ sent (snd (run Stub.urlparse Stub.good_disk
                  (default_args "http://test.local") []))
     = map (fun filename => (urljoin "http://test.local" filename, 5%Z))
         COMMON_FILES
  /\ List.length
       (sent (snd (run Stub.urlparse Stub.good_disk
                     (default_args "http://test.local") [])))
     = 11%nat
  /\ NoDup
       (map fst
          (sent (snd (run Stub.urlparse Stub.good_disk
                        (default_args "http://test.local") []))))
  /\ disk (snd (run Stub.urlparse Stub.good_disk
                  (default_args "http://test.local") []))
     = [].
Proof.
  apply (default_run Stub.urlparse Stub.good_disk "http://test.local" []).
  reflexivity.
Defined.
